(** * DIY Parca Agent: symbolizer ([cmd/addr2func]) and profile assembly
      ([cmd/profiler2]), embedded from the Go sources.

    Unsigned 64-bit values are integers of [Z] in [0, 2^64); arithmetic
    that can leave the range is reduced with [wrap64].  Slices are lists,
    indexed with stdpp's lookup; Go maps are [gmap]s. *)

From Stdlib Require Import ZArith Lia Bool.
From stdpp Require Import gmap strings list.
From Equations Require Import Equations.

Local Open Scope Z_scope.

(** ** Go runtime and standard-library pieces the programs call *)

Module Go.

Definition uint64_modulus : Z := 2 ^ 64.

(** Conversion to (and arithmetic in) [uint64]: reduction modulo 2^64. *)
Definition wrap64 (z : Z) : Z := z mod uint64_modulus.

Definition is_uint64 (z : Z) : Prop := 0 <= z < uint64_modulus.

(** [int64(x)] for an [x] of type [uint64]: the same 64 bits read as a
    two's-complement number. *)
Definition int64_of_uint64 (z : Z) : Z :=
  if z <? 2 ^ 63 then z else z - uint64_modulus.

(** [sort.Search]'s loop:
<<
    i, j := 0, n
    for i < j {
      h := int(uint(i+j) >> 1)
      if !f(h) { i = h + 1 } else { j = h }
    }
    return i
>> *)
Equations? Search_loop (f : nat -> bool) (i j : nat) : nat by wf (j - i)%nat lt :=
  Search_loop f i j with decide (i < j)%nat => {
    | left _ =>
        if f (Nat.div2 (i + j))
        then Search_loop f i (Nat.div2 (i + j))
        else Search_loop f (Nat.div2 (i + j) + 1)%nat j
    | right _ => i }.
Proof.
  all: pose proof (Nat.div2_odd (i + j)) as Hd;
    destruct (Nat.odd (i + j)); simpl in Hd; lia.
Qed.

Definition Search (n : nat) (f : nat -> bool) : nat := Search_loop f 0%nat n.

End Go.

(** ** cmd/addr2func: the symbolizer *)

Module Addr2Func.
Import Go.

(** [elf.Symbol]; the program reads [Name] and [Value]. *)
Record Symbol := mkSymbol {
  Name : string;
  Value : Z;
  Size : Z
}.

#[export] Instance Symbol_inhabited : Inhabited Symbol :=
  populate (mkSymbol "" 0 0).

(** [elf.ProgType] values used here. *)
Definition PT_NULL : Z := 0.
Definition PT_LOAD : Z := 1.

(** [elf.ProgHeader]; the program reads [Type], [Off] and [Vaddr]. *)
Record ProgHeader := mkProgHeader {
  PType : Z;
  Off : Z;
  Vaddr : Z
}.

Inductive error :=
| FailedToGetSymbols (cause : string)
| LoadableSegmentNotFound (fileOffset : Z).

Inductive result (A : Type) :=
| Ok (a : A)
| Err (e : error).
Arguments Ok {A} a.
Arguments Err {A} e.

(** What [newSymbolizer] uses of an [*elf.File]: the outcome of
    [f.Symbols()] (the symbols, or the cause of the failure) and
    [f.Progs]. *)
Record File := mkFile {
  Symbols : string + list Symbol;
  Progs : list ProgHeader
}.

Record symbolizer := mkSymbolizer {
  symbols : list Symbol;
  segmentOffset : Z;
  memoryStart : Z;
  isPIE : bool
}.

(** [sort.SliceStable(symbols, func(i, j) { return symbols[i].Value <
    symbols[j].Value })]: the stable sort, by insertion; an element goes
    in front of the first one that is not less than it. *)
Fixpoint insertSymbol (x : Symbol) (l : list Symbol) : list Symbol :=
  match l with
  | [] => [x]
  | y :: l' =>
      if Value y <? Value x then y :: insertSymbol x l' else x :: y :: l'
  end.

Definition SliceStable (l : list Symbol) : list Symbol :=
  foldr insertSymbol [] l.

(** The loop over [f.Progs]: the first header whose [Off] is [fileOffset],
    whatever its type; [segment] when there is none. *)
Fixpoint findSegment (progs : list ProgHeader) (fileOffset : Z)
    (segment : ProgHeader) : ProgHeader :=
  match progs with
  | [] => segment
  | p :: rest =>
      if Off p =? fileOffset then p else findSegment rest fileOffset segment
  end.

(** The zero value of [elf.ProgHeader] ([var segment elf.ProgHeader]). *)
Definition zeroProgHeader : ProgHeader := mkProgHeader 0 0 0.

Definition newSymbolizer (f : File) (fileOffset memoryStart : Z)
    : result symbolizer :=
  match Symbols f with
  | inl cause => Err (FailedToGetSymbols cause)
  | inr syms =>
      let symbols := SliceStable syms in
      let segment := findSegment (Progs f) fileOffset zeroProgHeader in
      if negb (PType segment =? PT_LOAD)
      then Err (LoadableSegmentNotFound fileOffset)
      else
        let isPIE := Vaddr segment =? Off segment in
        Ok {| symbols := symbols;
              segmentOffset := Off segment;
              memoryStart := memoryStart;
              isPIE := isPIE |}
  end.

Definition notfound : string := "?".

(** The address [Addr2FuncName] searches the table for, [None] on the
    two early returns: the [addr == 0] test, and the PIE adjustment
    [addr = s.segmentOffset + (addr - s.memoryStart)], in [uint64]. *)
Definition adjustAddr (s : symbolizer) (addr : Z) : option Z :=
  if addr =? 0 then None
  else if isPIE s then
    if addr <? memoryStart s then None
    else
      let segmentDistance := addr - memoryStart s in
      Some (wrap64 (segmentOffset s + segmentDistance))
  else Some addr.

(** The predicate handed to [sort.Search]:
    [func(i int) bool { return s.symbols[i].Value >= addr }]. *)
Definition valueAtLeast (symbols : list Symbol) (addr : Z) (i : nat) : bool :=
  Value (symbols !!! i) >=? addr.

(** The rest of [Addr2FuncName], from [sort.Search] on. *)
Definition searchSymbols (symbols : list Symbol) (addr : Z) : string :=
  let i := Search (length symbols) (valueAtLeast symbols addr) in
  if (length symbols <=? i)%nat then notfound
  else if Value (symbols !!! i) =? addr then Name (symbols !!! i)
  else if (1 <=? i)%nat && (Value (symbols !!! (i - 1)%nat) >? 0)
  then Name (symbols !!! (i - 1)%nat)
  else notfound.

Definition Addr2FuncName (s : symbolizer) (addr : Z) : string :=
  match adjustAddr s addr with
  | None => notfound
  | Some addr => searchSymbols (symbols s) addr
  end.

(** Ascending by [Value], ties allowed: what [SliceStable] establishes. *)
Fixpoint sortedByValue (l : list Symbol) : bool :=
  match l with
  | [] => true
  | x :: l' =>
      match l' with
      | [] => true
      | y :: _ => (Value x <=? Value y) && sortedByValue l'
      end
  end.

(** Position [i] holds [p], the first header of [progs] at the offset. *)
Definition firstAtOffset (progs : list ProgHeader) (fileOffset : Z)
    (i : nat) (p : ProgHeader) : Prop :=
  progs !! i = Some p /\ Off p = fileOffset
  /\ Forall (fun q => Off q <> fileOffset) (take i progs).

(** Position [k] holds [sym], the first symbol of [l] with value [t]. *)
Definition firstWithValue (l : list Symbol) (t : Z) (k : nat)
    (sym : Symbol) : Prop :=
  l !! k = Some sym /\ Value sym = t
  /\ Forall (fun sym' => Value sym' <> t) (take k l).

(** A loadable segment whose offset in the file is [fileOffset]. *)
Definition loadableAt (fileOffset : Z) (p : ProgHeader) : Prop :=
  PType p = PT_LOAD /\ Off p = fileOffset.

(** No header of another type at the offset stands in front of a
    loadable segment at the offset. *)
Definition unshadowed (progs : list ProgHeader) (fileOffset : Z) : Prop :=
  forall (i j : nat) (q p : ProgHeader),
    (i < j)%nat -> progs !! i = Some q -> progs !! j = Some p ->
    Off q = fileOffset -> loadableAt fileOffset p -> PType q = PT_LOAD.

End Addr2Func.

(** ** cmd/profiler2: filling the pprof profile from the BPF maps *)

Module Profiler.
Import Go.

(** [stackDepth], the [MAX_STACK_DEPTH] of the BPF program. *)
Definition stackDepth : nat := 127.

(** Key of the [Counts] map ([stack_count_key_t] on the BPF side). *)
Record stackCountKey := mkKey {
  PID : Z;
  UserStackID : Z;
  KernelStackID : Z
}.

(** [binary.LittleEndian.Uint64]:
    [uint64(b[0]) | uint64(b[1])<<8 | ... | uint64(b[7])<<56]. *)
Definition byteZ (b : Byte.byte) : Z := Z.of_N (Byte.to_N b).

Fixpoint LittleEndian_Uint (bs : list Byte.byte) : Z :=
  match bs with
  | [] => 0
  | b :: bs' => Z.lor (byteZ b) (Z.shiftl (LittleEndian_Uint bs') 8)
  end.

Definition LittleEndian_Uint64 (bs : list Byte.byte) : Z :=
  LittleEndian_Uint (take 8 bs).

Fixpoint decodeUint64s (n : nat) (bs : list Byte.byte) : list Z :=
  match n with
  | O => []
  | S n' => LittleEndian_Uint64 bs :: decodeUint64s n' (drop 8 bs)
  end.

(** [binary.Read(bytes.NewBuffer(bs), binary.LittleEndian, stack[:])] for a
    [[n]uint64]: [io.ReadFull] of [8*n] bytes, an error ([None]) when the
    buffer holds fewer, then one little-endian word per element. *)
Definition binary_Read (bs : list Byte.byte) (n : nat) : option (list Z) :=
  if (length bs <? 8 * n)%nat then None else Some (decodeUint64s n bs).

(** Outcome of [stackTraces.LookupBytes(id)]: an error, or the value bytes
    (none for an id the map does not hold). *)
Inductive LookupResult :=
| LookupErr
| LookupOk (stackBytes : list Byte.byte).

Definition StackTraces : Type := Z -> LookupResult.

(** [profile.Mapping]: the fields read here, and [ID]. *)
Module Mapping.
Record t := mk {
  ID : Z;
  Start : Z;
  Limit : Z;
  Offset : Z;
  File : string
}.
Definition setID (m : t) (id : Z) : t :=
  mk id (Start m) (Limit m) (Offset m) (File m).
End Mapping.

(** A [*profile.Mapping] is an address in the store of mappings; an
    address the store does not hold stands for [nil]. *)
Abbreviation MappingPtr := nat.
Abbreviation MappingStore := (gmap nat Mapping.t).

(** [profile.Location].  [Mapping] is the pointer, [None] for [nil]. *)
Module Location.
Record t := mk {
  ID : Z;
  Address : Z;
  Mapping : option MappingPtr
}.
End Location.

(** [profile.Sample].  A [*profile.Location] is represented by the
    Location it points to: [fillProfile] never writes to a Location
    after allocating it. *)
Module Sample.
Record t := mk {
  Value : list Z;
  Location : list Location.t
}.
End Sample.

Record ValueType := mkValueType { Type_ : string; Unit : string }.

Module Profile.
Record t := mk {
  SampleType : list ValueType;
  TimeNanos : Z;
  DurationNanos : Z;
  PeriodType : option ValueType;
  Period : Z;
  Sample : list Sample.t;
  Mapping : list MappingPtr;
  Location : list Location.t
}.
Definition setLocation (p : t) (l : list Location.t) : t :=
  mk (SampleType p) (TimeNanos p) (DurationNanos p) (PeriodType p)
     (Period p) (Sample p) (Mapping p) l.
Definition setSample (p : t) (l : list Sample.t) : t :=
  mk (SampleType p) (TimeNanos p) (DurationNanos p) (PeriodType p)
     (Period p) l (Mapping p) (Location p).
Definition setMapping (p : t) (l : list MappingPtr) : t :=
  mk (SampleType p) (TimeNanos p) (DurationNanos p) (PeriodType p)
     (Period p) (Sample p) l (Location p).
End Profile.

(** [newProfile]; [now] is [time.Now().UnixNano()]. *)
Definition newProfile (profilingDuration now : Z) : Profile.t :=
  {| Profile.SampleType := [mkValueType "samples" "count"];
     Profile.TimeNanos := now;
     Profile.DurationNanos := profilingDuration;
     Profile.PeriodType := Some (mkValueType "cpu" "nanoseconds");
     Profile.Period := 10000000;
     Profile.Sample := [];
     Profile.Mapping := [];
     Profile.Location := [] |}.

(** Key of [locationIndices]: [locationIndex{PID, Addr}]. *)
Abbreviation locationIndex := (Z * Z)%type.

(** What the program prints and logs, in order. *)
Inductive Event :=
| PrintSeen (key : stackCountKey) (seen : Z)
| PrintStack (id : Z) (addrs : list Z)
| LogUserLookupFailed
| LogUserReadFailed
| LogKernelLookupFailed
| LogKernelReadFailed
| LogNoMapping (addr : Z)
| LogCountsFailed.

(** A computation that may panic ([None]: nil dereference, index out
    of range) and otherwise yields a value and the events it emitted. *)
Definition M (A : Type) : Type := option (A * list Event).

Definition ret {A} (a : A) : M A := Some (a, []).
Definition emit (e : Event) : M unit := Some (tt, [e]).
Definition panic {A} : M A := None.
Definition bind {A B} (m : M A) (k : A -> M B) : M B :=
  match m with
  | None => None
  | Some (a, out) =>
      match k a with
      | None => None
      | Some (b, out') => Some (b, out ++ out')
      end
  end.

Notation "'do' x <- m ; k" := (bind m (fun x => k))
  (at level 10, x name, m at level 100, k at level 200).
Notation "m ;; k" := (bind m (fun _ => k))
  (at level 100, k at level 200, right associativity).

Fixpoint foldM {A S} (f : S -> A -> M S) (l : list A) (s : S) : M S :=
  match l with
  | [] => ret s
  | a :: l' => do s' <- f s a; foldM f l' s'
  end.

(** [mappingForAddr]: the first mapping of the slice with
    [m.Start <= addr && m.Limit >= addr], [nil] when there is none. *)
Fixpoint mappingForAddr (store : MappingStore) (mapping : list MappingPtr)
    (addr : Z) : M (option MappingPtr) :=
  match mapping with
  | [] => ret None
  | p :: rest =>
      match store !! p with
      | None => panic
      | Some m =>
          if (Mapping.Start m <=? addr) && (Mapping.Limit m >=? addr)
          then ret (Some p)
          else mappingForAddr store rest addr
      end
  end.

(** [tracedAddresses]: [stack[:i]] at the first [i] with [stack[i] == 0],
    [nil] when no entry is zero. *)
Fixpoint tracedLoop (stack rest : list Z) (i : nat) : list Z :=
  match rest with
  | [] => []
  | addr :: rest' =>
      if addr =? 0 then take i stack else tracedLoop stack rest' (S i)
  end.

Definition tracedAddresses (stack : list Z) : list Z :=
  tracedLoop stack stack 0%nat.

(** The part of the state [fillProfile]'s loops update: [prof.Location],
    [prof.Sample] and [locationIndices]. *)
Record State := mkState {
  locations : list Location.t;
  samples : list Sample.t;
  locationIndices : gmap locationIndex nat
}.

(** Body of [for _, addr := range userStack]. *)
Definition visitAddr (store : MappingStore) (pid : Z)
    (mm : list MappingPtr) (acc : State * list Location.t) (addr : Z)
    : M (State * list Location.t) :=
  let '(st, sampleLocations) := acc in
  if addr =? 0 then ret (st, sampleLocations)
  else
    let locKey : locationIndex := (pid, addr) in
    match locationIndices st !! locKey with
    | Some locIndex =>
        match locations st !! locIndex with
        | None => panic
        | Some l => ret (st, sampleLocations ++ [l])
        end
    | None =>
        do m <- mappingForAddr store mm addr;
        (if m is None then emit (LogNoMapping addr) else ret tt);;
        let locIndex := length (locations st) in
        let loc := {| Location.ID := Z.of_nat (locIndex + 1);
                      Location.Address := addr;
                      Location.Mapping := m |} in
        let st' := {| locations := locations st ++ [loc];
                      samples := samples st;
                      locationIndices :=
                        <[locKey := locIndex]> (locationIndices st) |} in
        match locations st' !! locIndex with
        | None => panic
        | Some l => ret (st', sampleLocations ++ [l])
        end
    end.

(** Body of [for it.Next(&key, &seen)]. *)
Definition processKey (store : MappingStore) (stackTraces : StackTraces)
    (pid : Z) (mm : list MappingPtr) (st : State)
    (entry : stackCountKey * Z) : M State :=
  let '(key, seen) := entry in
  emit (PrintSeen key seen);;
  match stackTraces (UserStackID key) with
  | LookupErr => emit LogUserLookupFailed;; ret st
  | LookupOk stackBytes =>
    match binary_Read stackBytes stackDepth with
    | None => emit LogUserReadFailed;; ret st
    | Some userStack =>
      emit (PrintStack (UserStackID key) (tracedAddresses userStack));;
      match stackTraces (KernelStackID key) with
      | LookupErr => emit LogKernelLookupFailed;; ret st
      | LookupOk stackBytes =>
        match binary_Read stackBytes stackDepth with
        | None => emit LogKernelReadFailed
        | Some kernelStack =>
            emit (PrintStack (KernelStackID key)
                    (tracedAddresses kernelStack))
        end;;
        do acc <- foldM (visitAddr store pid mm) userStack (st, []);
        let '(st', sampleLocations) := acc in
        ret {| locations := locations st';
               samples := samples st' ++
                 [{| Sample.Value := [int64_of_uint64 seen];
                     Sample.Location := sampleLocations |}];
               locationIndices := locationIndices st' |}
      end
    end
  end.

(** [for i, m := range mm { m.ID = uint64(i + 1) }], from index [i]. *)
Fixpoint assignIDs (mm : list MappingPtr) (i : nat) (store : MappingStore)
    : M MappingStore :=
  match mm with
  | [] => ret store
  | p :: rest =>
      match store !! p with
      | None => panic
      | Some m =>
          assignIDs rest (S i)
            (<[p := Mapping.setID m (Z.of_nat (i + 1))]> store)
      end
  end.

(** [fillProfile].  [counts] is the sequence the iterator yields and
    [itErr] tells whether [it.Err()] is non-nil afterwards.  The result
    is the profile and the store of mappings after the call. *)
Definition fillProfile (counts : list (stackCountKey * Z)) (itErr : bool)
    (stackTraces : StackTraces) (prof : Profile.t) (pid : Z)
    (mm : list MappingPtr) (store : MappingStore)
    : M (Profile.t * MappingStore) :=
  let st0 := {| locations := Profile.Location prof;
                samples := Profile.Sample prof;
                locationIndices := ∅ |} in
  do st <- foldM (processKey store stackTraces pid mm) counts st0;
  (if itErr then emit LogCountsFailed else ret tt);;
  do store' <- assignIDs mm 0%nat store;
  let prof' :=
    Profile.setMapping
      (Profile.setSample (Profile.setLocation prof (locations st))
         (samples st)) mm in
  ret (prof', store').

(** [binary.LittleEndian.PutUint64], to write stacks down as the bytes the
    stack-trace map holds. *)
Definition byteOfZ (z : Z) : Byte.byte :=
  default Byte.x00 (Byte.of_N (Z.to_N (z mod 256))).

Fixpoint LittleEndian_PutUint (n : nat) (v : Z) : list Byte.byte :=
  match n with
  | O => []
  | S n' => byteOfZ v :: LittleEndian_PutUint n' (Z.shiftr v 8)
  end.

Definition encodeStack (stack : list Z) : list Byte.byte :=
  concat (map (LittleEndian_PutUint 8) stack).

(** A raw stack as the kernel hands it out: the frames, then zeros up to
    [stackDepth]. *)
Definition padStack (frames : list Z) : list Z :=
  frames ++ replicate (stackDepth - length frames) 0.

(** *** Vocabulary of the statements about [fillProfile] *)

(** The value of a computation, without the events. *)
Definition valueOf {A} (m : M A) : option A := fst <$> m.

(** No pointer of the slice is [nil]. *)
Definition validMappings (store : MappingStore) (mm : list MappingPtr)
    : Prop :=
  Forall (fun p => is_Some (store !! p)) mm.

(** [addr] lies in the mapping, both ends included. *)
Definition contains (m : Mapping.t) (addr : Z) : Prop :=
  Mapping.Start m <= addr /\ addr <= Mapping.Limit m.

Definition missesAll (store : MappingStore) (addr : Z)
    (ps : list MappingPtr) : Prop :=
  Forall (fun q => forall mq, store !! q = Some mq -> ~ contains mq addr) ps.

(** [r] is the first mapping of [mm], in list order, that contains
    [addr]; [None] when no mapping of [mm] contains it. *)
Definition firstContaining (store : MappingStore) (mm : list MappingPtr)
    (addr : Z) (r : option MappingPtr) : Prop :=
  match r with
  | Some p =>
      exists (i : nat) (m : Mapping.t),
        mm !! i = Some p /\ store !! p = Some m /\ contains m addr
        /\ missesAll store addr (take i mm)
  | None => missesAll store addr mm
  end.

(** The user stack of a key that gets a Sample: both lookups succeed and
    the user stack decodes. *)
Definition readStacks (stackTraces : StackTraces) (key : stackCountKey)
    : option (list Z) :=
  match stackTraces (UserStackID key) with
  | LookupErr => None
  | LookupOk stackBytes =>
      match binary_Read stackBytes stackDepth with
      | None => None
      | Some userStack =>
          match stackTraces (KernelStackID key) with
          | LookupErr => None
          | LookupOk _ => Some userStack
          end
      end
  end.

Definition nonzero (stack : list Z) : list Z :=
  filter (fun addr => addr <> 0) stack.

(** The value and the addresses of the locations of a Sample. *)
Definition sampleShape (s : Sample.t) : list Z * list Z :=
  (Sample.Value s, Location.Address <$> Sample.Location s).

Definition shapeOf (stackTraces : StackTraces)
    (entry : stackCountKey * Z) : option (list Z * list Z) :=
  match readStacks stackTraces (fst entry) with
  | None => None
  | Some userStack =>
      Some ([int64_of_uint64 (snd entry)], nonzero userStack)
  end.

Definition expectedShapes (stackTraces : StackTraces)
    (counts : list (stackCountKey * Z)) : list (list Z * list Z) :=
  omap (shapeOf stackTraces) counts.

(** The addresses in front of the first zero entry. *)
Fixpoint beforeFirstZero (stack : list Z) : list Z :=
  match stack with
  | [] => []
  | addr :: rest => if addr =? 0 then [] else addr :: beforeFirstZero rest
  end.

(** Nothing but zeros from the first zero entry on. *)
Fixpoint zeroPadded (stack : list Z) : bool :=
  match stack with
  | [] => true
  | addr :: rest =>
      if addr =? 0 then forallb (fun a => a =? 0) rest else zeroPadded rest
  end.

(** [l] is the entry of [prof.Location] that [locationIndices] records for
    its address. *)
Definition InPass (pid : Z) (st : State) (l : Location.t) : Prop :=
  exists i : nat,
    locationIndices st !! (pid, Location.Address l) = Some i
    /\ locations st !! i = Some l.

(** What the loops maintain; [n0] is the length of [prof.Location] at
    the call. *)
Record Inv (store : MappingStore) (pid : Z) (mm : list MappingPtr)
    (n0 : nat) (st : State) : Prop := mkInv {
  inv_len : (n0 <= length (locations st))%nat;
  inv_idx : forall (k : locationIndex) (i : nat),
    locationIndices st !! k = Some i ->
    (n0 <= i)%nat
    /\ exists l, locations st !! i = Some l
                 /\ k = (pid, Location.Address l);
  inv_loc : forall (i : nat) (l : Location.t),
    (n0 <= i)%nat -> locations st !! i = Some l ->
    locationIndices st !! (pid, Location.Address l) = Some i
    /\ Location.ID l = Z.of_nat (i + 1)
    /\ valueOf (mappingForAddr store mm (Location.Address l)) =
         Some (Location.Mapping l)
    /\ Location.Address l <> 0
}.

(** [st'] comes after [st] in the pass. *)
Definition Ext (st st' : State) : Prop :=
  (exists extra, locations st' = locations st ++ extra)
  /\ locationIndices st ⊆ locationIndices st'.

(** *** The ticker loop of profiler2

    Body of [for it.Next(&key, &seen)] in the [ticker.C] case of [main]:
    each key is printed with its two stacks; any failure, that of decoding
    the kernel stack included, ends the key. *)
Definition printKey (stackTraces : StackTraces) (entry : stackCountKey * Z)
    : M unit :=
  let '(key, seen) := entry in
  emit (PrintSeen key seen);;
  match stackTraces (UserStackID key) with
  | LookupErr => emit LogUserLookupFailed
  | LookupOk stackBytes =>
    match binary_Read stackBytes stackDepth with
    | None => emit LogUserReadFailed
    | Some userStack =>
      emit (PrintStack (UserStackID key) (tracedAddresses userStack));;
      match stackTraces (KernelStackID key) with
      | LookupErr => emit LogKernelLookupFailed
      | LookupOk stackBytes =>
        match binary_Read stackBytes stackDepth with
        | None => emit LogKernelReadFailed
        | Some kernelStack =>
            emit (PrintStack (KernelStackID key)
                    (tracedAddresses kernelStack))
        end
      end
    end
  end.

(** One tick: the loop over the counts map, then the test of [it.Err()]. *)
Definition printStacks (counts : list (stackCountKey * Z)) (itErr : bool)
    (stackTraces : StackTraces) : M unit :=
  foldM (fun _ entry => printKey stackTraces entry) counts tt;;
  if itErr then emit LogCountsFailed else ret tt.

Definition isNoMapping (e : Event) : bool :=
  match e with
  | LogNoMapping _ => true
  | _ => false
  end.

(** Two entries of the counts map that differ at most in the PID. *)
Definition sameStacks (e e' : stackCountKey * Z) : Prop :=
  UserStackID (fst e) = UserStackID (fst e')
  /\ KernelStackID (fst e) = KernelStackID (fst e')
  /\ snd e = snd e'.

(** States that differ only in the pid under which [locationIndices]
    files the addresses. *)
Definition samePass (pid pid' : Z) (st st' : State) : Prop :=
  locations st = locations st' /\ samples st = samples st'
  /\ forall addr : Z,
       locationIndices st !! (pid, addr) = locationIndices st' !! (pid', addr).

(** Every Location created so far (from position [n0] of [prof.Location]
    on) is listed in the Sample under construction or in a Sample appended
    so far (from position [m0] of [prof.Sample] on). *)
Definition covered (n0 m0 : nat) (st : State) (sl : list Location.t)
    : Prop :=
  (m0 <= length (samples st))%nat
  /\ forall (i : nat) (l : Location.t),
       (n0 <= i)%nat -> locations st !! i = Some l ->
       l ∈ sl
       \/ exists s : Sample.t,
            s ∈ drop m0 (samples st) /\ l ∈ Sample.Location s.

(** The events without the reports of addresses outside every mapping. *)
Definition withoutNoMapping (out : list Event) : list Event :=
  filter (fun e => isNoMapping e = false) out.

End Profiler.

(** ** The BPF program ([parca-agent.bpf.c]) *)

Module Bpf.
Import Go.

(** [max_entries] of the [counts] map. *)
Definition counts_max_entries : Z := 10240.

(** [struct stack_count_key_t]: pid, user_stack_id, kernel_stack_id. *)
Abbreviation stack_count_key_t := (Z * Z * Z)%type.

Abbreviation CountsMap := (gmap (Z * Z * Z) Z).

(** What the kernel gives one run of [do_sample]: the value of
    [bpf_get_current_pid_tgid()] and the results of the two calls of
    [bpf_get_stackid], a stack id or a negative error. *)
Record Ctx := mkCtx {
  pid_tgid : Z;
  user_stackid : Z;
  kernel_stackid : Z
}.

(** [bpf_map_lookup_or_try_init] comes from [maps.bpf.h], which is not
    among the sources; it is taken as libbpf's tools define it: the slot of
    the key if the map has one, else the slot of a new element holding
    [init], and [NULL] ([None]) when the element cannot be added, which on
    a hash map is when it holds [max_entries] elements. *)
Definition bpf_map_lookup_or_try_init (counts : CountsMap)
    (key : stack_count_key_t) (init : Z) : option CountsMap :=
  match counts !! key with
  | Some _ => Some counts
  | None =>
      if Z.of_nat (size counts) <? counts_max_entries
      then Some (<[key := init]> counts)
      else None
  end.

(** [do_sample]: the [counts] map after one run of the program. *)
Definition do_sample (ctx : Ctx) (counts : CountsMap) : CountsMap :=
  let id := pid_tgid ctx in
  let tgid := Z.shiftr id 32 mod 2 ^ 32 in
  let pid := id mod 2 ^ 32 in
  if pid =? 0 then counts
  else
    let key : stack_count_key_t :=
      (tgid, user_stackid ctx, kernel_stackid ctx) in
    let zero := 0 in
    match bpf_map_lookup_or_try_init counts key zero with
    | None => counts
    | Some counts1 =>
        match counts1 !! key with
        | None => counts1
        | Some seen => <[key := wrap64 (seen + 1)]> counts1
        end
    end.

(** The key [do_sample] counts under: the thread group id (the upper half
    of [pid_tgid]) and the two stack ids as they came. *)
Definition key_of (ctx : Ctx) : stack_count_key_t :=
  (Z.shiftr (pid_tgid ctx) 32 mod 2 ^ 32, user_stackid ctx,
   kernel_stackid ctx).

(** What [counts.Iterate()] yields on the Go side, where the key is read
    into a [stackCountKey]; the order is that of the map. *)
Definition Iterate (counts : CountsMap)
    : list (Profiler.stackCountKey * Z) :=
  (fun e : Z * Z * Z * Z =>
     (Profiler.mkKey (fst (fst (fst e))) (snd (fst (fst e))) (snd (fst e)),
      snd e)) <$> map_to_list counts.

(** [MAX_STACK_ADDRESSES], the [max_entries] of the [stack_traces] map. *)
Definition MAX_STACK_ADDRESSES : Z := 1024.

(** A table read from the [stack_traces] map, of type
    [BPF_MAP_TYPE_STACK_TRACE] with [u32] keys and [MAX_STACK_ADDRESSES]
    entries: the map holds stacks under the ids
    [0 .. MAX_STACK_ADDRESSES - 1] only, so the lookup of any other id, a
    negative [int32] among them, fails or yields no bytes. *)
Definition isStackTraceMap (stackTraces : Profiler.StackTraces) : Prop :=
  forall id : Z, id < 0 \/ MAX_STACK_ADDRESSES <= id ->
    stackTraces id = Profiler.LookupErr
    \/ stackTraces id = Profiler.LookupOk [].

End Bpf.

Import Go Addr2Func Profiler Bpf.

(** ** Data for the examples

    The addresses are those of [fibNaive] and [main] in the tests of
    [cmd/addr2func]; the mappings are two segments of the traced binary. *)

Module Scenario.
Import Profiler.

Definition fibNaive : Z := 0x401126.
Definition main : Z := 0x40115a.

(** A stack with a hole: a zero entry, then a nonzero one. *)
Definition holedStack : list Z :=
  [fibNaive; 0; main] ++ replicate 124%nat 0.

(** Stack 7 is a two-frame stack, stack 8 the holed one, looking up
    stack 9 fails; any other id is absent from the map ([LookupBytes]
    then returns no bytes and no error). *)
Definition stackTraces : StackTraces := fun id =>
  if id =? 7 then LookupOk (encodeStack (padStack [fibNaive; main]))
  else if id =? 8 then LookupOk (encodeStack holedStack)
  else if id =? 9 then LookupErr
  else LookupOk [].

Definition text : Mapping.t := Mapping.mk 0 0x401000 0x402000 0x1000 "/fib".
Definition data : Mapping.t := Mapping.mk 0 0x404000 0x405000 0x3000 "/fib".

Definition store : gmap nat Mapping.t := {[ 100%nat := text; 101%nat := data ]}.
Definition mm : list nat := [100%nat; 101%nat].

Definition prof : Profile.t := newProfile 10000000000 0.

(** Stack 5 has a frame at the very limit of [text] and one that lies
    in no mapping. *)
Definition atLimit : Z := 0x402000.
Definition unmapped : Z := 0x7ffc2a3b1000.

Definition edgeTraces : StackTraces := fun id =>
  if id =? 5 then LookupOk (encodeStack (padStack [atLimit; unmapped]))
  else LookupOk [].

End Scenario.

(** * Facts *)

(** ** [sort.Search] *)

Lemma Search_loop_unfold (f : nat -> bool) (i j : nat) :
  Search_loop f i j =
    if decide (i < j)%nat then
      if f (Nat.div2 (i + j))
      then Search_loop f i (Nat.div2 (i + j))
      else Search_loop f (Nat.div2 (i + j) + 1)%nat j
    else i.
Proof.
  rewrite Search_loop_equation_1.
  destruct (decide (i < j)%nat); reflexivity.
Qed.

Lemma div2_between (i j : nat) :
  (i < j)%nat -> (i <= Nat.div2 (i + j) < j)%nat.
Proof.
  intros Hij. pose proof (Nat.div2_odd (i + j)) as Hd.
  destruct (Nat.odd (i + j)); simpl in Hd; lia.
Qed.

(** The loop calls [f] below [j] only: with [n] the length of a slice, the
    predicate never indexes out of range. *)
Lemma Search_loop_ext (f g : nat -> bool) (d i j : nat) :
  (j - i <= d)%nat ->
  (forall k : nat, (k < j)%nat -> f k = g k) ->
  Search_loop f i j = Search_loop g i j.
Proof.
  revert i j. induction d as [|d IH]; intros i j Hd Hfg.
  - rewrite (Search_loop_unfold f), (Search_loop_unfold g).
    destruct (decide (i < j)%nat); [lia|reflexivity].
  - rewrite (Search_loop_unfold f), (Search_loop_unfold g).
    destruct (decide (i < j)%nat) as [Hlt|_]; [|reflexivity].
    pose proof (div2_between i j Hlt) as Hh.
    rewrite <- (Hfg (Nat.div2 (i + j))) by lia.
    destruct (f (Nat.div2 (i + j))).
    + apply IH; [lia|]. intros k Hk. apply Hfg. lia.
    + apply IH; [lia|exact Hfg].
Qed.

Lemma Search_ext (n : nat) (f g : nat -> bool) :
  (forall k : nat, (k < n)%nat -> f k = g k) -> Search n f = Search n g.
Proof.
  intros Hfg. unfold Search. apply (Search_loop_ext f g n); [lia|exact Hfg].
Qed.

Section SearchFacts.
Variable f : nat -> bool.
Variable n : nat.
Hypothesis f_mono :
  forall a b : nat, (a <= b < n)%nat -> f a = true -> f b = true.

(** The loop keeps [f] false below [i] and true from [j] on, and ends
    with [i = j]. *)
Lemma Search_loop_spec (d i j : nat) :
  (j - i <= d)%nat -> (i <= j <= n)%nat ->
  (forall k : nat, (k < i)%nat -> f k = false) ->
  (forall k : nat, (j <= k < n)%nat -> f k = true) ->
  (Search_loop f i j <= n)%nat
  /\ (forall k : nat, (k < Search_loop f i j)%nat -> f k = false)
  /\ (forall k : nat, (Search_loop f i j <= k < n)%nat -> f k = true).
Proof.
  revert i j. induction d as [|d IH]; intros i j Hd Hij Hlo Hhi.
  - rewrite Search_loop_unfold. destruct (decide (i < j)%nat); [lia|].
    assert (i = j) by lia. subst j. split; [lia|]. split; auto.
  - rewrite Search_loop_unfold. destruct (decide (i < j)%nat) as [Hlt|Hge].
    + pose proof (div2_between i j Hlt) as Hh.
      destruct (f (Nat.div2 (i + j))) eqn:Hf.
      * apply IH; [lia|lia|exact Hlo|].
        intros k Hk. destruct (decide (j <= k)%nat) as [Hjk|Hjk].
        -- apply Hhi. lia.
        -- apply (f_mono (Nat.div2 (i + j)) k); [lia|exact Hf].
      * apply IH; [lia|lia| |exact Hhi].
        intros k Hk. destruct (f k) eqn:Hfk; [|reflexivity].
        rewrite <- Hf. symmetry.
        apply (f_mono k (Nat.div2 (i + j))); [lia|exact Hfk].
    + assert (i = j) by lia. subst j. split; [lia|]. split; auto.
Qed.

Lemma Search_spec :
  (Search n f <= n)%nat
  /\ (forall k : nat, (k < Search n f)%nat -> f k = false)
  /\ (forall k : nat, (Search n f <= k < n)%nat -> f k = true).
Proof.
  unfold Search. apply (Search_loop_spec n); [lia|lia| |].
  - intros k Hk. lia.
  - intros k Hk. lia.
Qed.

(** On a monotone predicate the result is the least index where it
    holds. *)
Lemma Search_least (k : nat) :
  (k < n)%nat -> f k = true ->
  (forall k' : nat, (k' < k)%nat -> f k' = false) ->
  Search n f = k.
Proof.
  intros Hk Hfk Hbelow.
  destruct Search_spec as (Hle & Hlo & Hhi).
  destruct (lt_eq_lt_dec (Search n f) k) as [[Hlt|Heq]|Hgt].
  - assert (Hin : (Search n f <= Search n f < n)%nat) by lia.
    pose proof (Hhi _ Hin) as Ht.
    rewrite (Hbelow _ Hlt) in Ht. discriminate.
  - exact Heq.
  - rewrite (Hlo k Hgt) in Hfk. discriminate.
Qed.

Lemma Search_none :
  (forall k : nat, (k < n)%nat -> f k = false) -> Search n f = n.
Proof.
  intros Hnone.
  destruct Search_spec as (Hle & Hlo & Hhi).
  destruct (decide (Search n f = n)) as [Heq|Hne]; [exact Heq|].
  assert (Hin : (Search n f <= Search n f < n)%nat) by lia.
  pose proof (Hhi _ Hin) as Ht.
  rewrite Hnone in Ht; [discriminate|lia].
Qed.
End SearchFacts.

(** ** The symbolizer *)

Lemma sortedByValue_tail (x : Symbol) (l : list Symbol) :
  sortedByValue (x :: l) = true -> sortedByValue l = true.
Proof.
  destruct l as [|y l]; [reflexivity|].
  cbn [sortedByValue]. intros H. apply andb_prop in H. exact (proj2 H).
Qed.

Lemma sortedByValue_head (x : Symbol) (l : list Symbol) :
  sortedByValue (x :: l) = true ->
  forall (j : nat) (b : Symbol), l !! j = Some b -> Value x <= Value b.
Proof.
  revert x. induction l as [|y l IH]; intros x Hs j b Hj.
  - rewrite lookup_nil in Hj. discriminate.
  - pose proof (sortedByValue_tail _ _ Hs) as Hs'.
    cbn [sortedByValue] in Hs. apply andb_prop in Hs as [Hxy _].
    apply Z.leb_le in Hxy.
    destruct j as [|j]; simpl in Hj.
    + injection Hj as <-. exact Hxy.
    + pose proof (IH y Hs' j b Hj). lia.
Qed.

(** [sortedByValue] as a statement about positions. *)
Lemma sortedByValue_le (l : list Symbol) :
  sortedByValue l = true ->
  forall (i j : nat) (a b : Symbol),
    (i <= j)%nat -> l !! i = Some a -> l !! j = Some b -> Value a <= Value b.
Proof.
  induction l as [|x l IH]; intros Hs i j a b Hij Hi Hj.
  - rewrite lookup_nil in Hi. discriminate.
  - destruct i as [|i]; simpl in Hi.
    + injection Hi as <-. destruct j as [|j]; simpl in Hj.
      * injection Hj as <-. lia.
      * exact (sortedByValue_head _ _ Hs j b Hj).
    + destruct j as [|j]; [lia|]. simpl in Hj.
      apply (IH (sortedByValue_tail _ _ Hs) i j); [lia|exact Hi|exact Hj].
Qed.

Lemma insertSymbol_sorted (x : Symbol) (l : list Symbol) :
  sortedByValue l = true -> sortedByValue (insertSymbol x l) = true.
Proof.
  induction l as [|y l IH]; intros Hs; [reflexivity|].
  cbn [insertSymbol]. destruct (Value y <? Value x) eqn:Hyx.
  - apply Z.ltb_lt in Hyx.
    pose proof (IH (sortedByValue_tail _ _ Hs)) as IH'.
    destruct l as [|z l].
    + cbn. rewrite andb_true_r. apply Z.leb_le. lia.
    + cbn [insertSymbol] in *. cbn [sortedByValue] in Hs.
      apply andb_prop in Hs as [Hyz _].
      destruct (Value z <? Value x).
      * cbn [sortedByValue]. rewrite Hyz. exact IH'.
      * cbn [sortedByValue]. cbn [sortedByValue] in IH'.
        replace (Value y <=? Value x) with true
          by (symmetry; apply Z.leb_le; lia).
        exact IH'.
  - apply Z.ltb_ge in Hyx. cbn [sortedByValue].
    replace (Value x <=? Value y) with true by (symmetry; apply Z.leb_le; lia).
    exact Hs.
Qed.

(** The table [newSymbolizer] stores is sorted. *)
Lemma SliceStable_sorted (l : list Symbol) :
  sortedByValue (SliceStable l) = true.
Proof.
  induction l as [|x l IH]; [reflexivity|].
  apply insertSymbol_sorted. exact IH.
Qed.

Lemma insertSymbol_Permutation (x : Symbol) (l : list Symbol) :
  Permutation (insertSymbol x l) (x :: l).
Proof.
  induction l as [|y l IH]; [reflexivity|].
  cbn [insertSymbol]. destruct (Value y <? Value x); [|reflexivity].
  rewrite IH. apply perm_swap.
Qed.

Lemma SliceStable_Permutation (l : list Symbol) :
  Permutation (SliceStable l) l.
Proof.
  induction l as [|x l IH]; [reflexivity|].
  cbn [SliceStable foldr]. rewrite insertSymbol_Permutation.
  apply perm_skip. exact IH.
Qed.

(** Stability: symbols of equal value keep their relative order. *)
Lemma insertSymbol_filter (v : Z) (x : Symbol) (l : list Symbol) :
  filter (fun s => Value s = v) (insertSymbol x l) =
  filter (fun s => Value s = v) (x :: l).
Proof.
  induction l as [|y l IH]; [reflexivity|].
  cbn [insertSymbol]. destruct (Value y <? Value x) eqn:Hyx; [|reflexivity].
  apply Z.ltb_lt in Hyx.
  rewrite filter_cons, IH, !filter_cons.
  destruct (decide (Value y = v)), (decide (Value x = v));
    try reflexivity; lia.
Qed.

Lemma SliceStable_stable (v : Z) (l : list Symbol) :
  filter (fun s => Value s = v) (SliceStable l) =
  filter (fun s => Value s = v) l.
Proof.
  induction l as [|x l IH]; [reflexivity|].
  cbn [SliceStable foldr]. rewrite insertSymbol_filter, !filter_cons.
  fold (SliceStable l). rewrite IH. reflexivity.
Qed.

Section SearchSymbols.
Variable l : list Symbol.
Variable t : Z.
Hypothesis l_sorted : sortedByValue l = true.

Lemma geb_mono (a b : nat) :
  (a <= b < length l)%nat ->
  valueAtLeast l t a = true -> valueAtLeast l t b = true.
Proof using l_sorted.
  intros Hab Ha. unfold valueAtLeast in *.
  destruct (lookup_lt_is_Some_2 l a) as [sa Hsa]; [lia|].
  destruct (lookup_lt_is_Some_2 l b) as [sb Hsb]; [lia|].
  rewrite (list_lookup_total_correct _ _ _ Hsa) in Ha.
  rewrite (list_lookup_total_correct _ _ _ Hsb).
  pose proof (sortedByValue_le l l_sorted a b sa sb (proj1 Hab) Hsa Hsb).
  apply Z.geb_le. apply Z.geb_le in Ha. lia.
Qed.

(** Where the search stops: at the first symbol whose value is not below
    the address. *)
Lemma Search_first (k : nat) (T : Symbol) :
  l !! k = Some T -> t <= Value T ->
  (forall (j : nat) (sym' : Symbol),
      (j < k)%nat -> l !! j = Some sym' -> Value sym' < t) ->
  Search (length l) (valueAtLeast l t) = k.
Proof using l_sorted.
  intros Hk HT Hbelow.
  apply (Search_least (valueAtLeast l t) (length l) geb_mono).
  - exact (lookup_lt_Some _ _ _ Hk).
  - unfold valueAtLeast. rewrite (list_lookup_total_correct _ _ _ Hk).
    apply Z.geb_le. exact HT.
  - intros j Hj. unfold valueAtLeast.
    destruct (lookup_lt_is_Some_2 l j) as [sj Hsj].
    { pose proof (lookup_lt_Some _ _ _ Hk). lia. }
    rewrite (list_lookup_total_correct _ _ _ Hsj).
    pose proof (Hbelow j sj Hj Hsj).
    destruct (Value sj >=? t) eqn:Hge; [|reflexivity].
    apply Z.geb_le in Hge. lia.
Qed.

Lemma Search_past_end :
  (forall sym : Symbol, sym ∈ l -> Value sym < t) ->
  Search (length l) (valueAtLeast l t) = length l.
Proof using l_sorted.
  intros Hall. apply (Search_none (valueAtLeast l t) (length l) geb_mono).
  intros k Hk. unfold valueAtLeast.
  destruct (lookup_lt_is_Some_2 l k Hk) as [sk Hsk].
  rewrite (list_lookup_total_correct _ _ _ Hsk).
  pose proof (Hall sk (list_elem_of_lookup_2 _ _ _ Hsk)).
  destruct (Value sk >=? t) eqn:Hge; [|reflexivity].
  apply Z.geb_le in Hge. lia.
Qed.

Lemma searchSymbols_exact (k : nat) (T : Symbol) :
  l !! k = Some T -> Value T = t ->
  (forall (j : nat) (sym' : Symbol),
      (j < k)%nat -> l !! j = Some sym' -> Value sym' <> t) ->
  searchSymbols l t = Name T.
Proof using l_sorted.
  intros Hk HT Hfirst. unfold searchSymbols.
  rewrite (Search_first k T Hk); [|lia|].
  - pose proof (lookup_lt_Some _ _ _ Hk) as Hlen.
    destruct (Nat.leb_spec (length l) k); [lia|].
    rewrite (list_lookup_total_correct _ _ _ Hk).
    rewrite (proj2 (Z.eqb_eq _ _) HT). reflexivity.
  - intros j sym' Hj Hsym'.
    pose proof (sortedByValue_le l l_sorted j k sym' T) as Hle.
    pose proof (Hfirst j sym' Hj Hsym').
    specialize (Hle ltac:(lia) Hsym' Hk). lia.
Qed.

(** The address falls strictly between the entries at [k] and [k+1]. *)
Lemma searchSymbols_between (k : nat) (lo hi : Symbol) :
  l !! k = Some lo -> l !! (k + 1)%nat = Some hi ->
  Value lo < t < Value hi ->
  searchSymbols l t = if Value lo >? 0 then Name lo else notfound.
Proof using l_sorted.
  intros Hlo Hhi Hbetween. unfold searchSymbols.
  rewrite (Search_first (k + 1)%nat hi Hhi); [|lia|].
  - pose proof (lookup_lt_Some _ _ _ Hhi) as Hlen.
    destruct (Nat.leb_spec (length l) (k + 1)); [lia|].
    rewrite (list_lookup_total_correct _ _ _ Hhi).
    destruct (Z.eqb_spec (Value hi) t); [lia|].
    replace (k + 1 - 1)%nat with k by lia.
    rewrite (list_lookup_total_correct _ _ _ Hlo).
    destruct (Nat.leb_spec 1 (k + 1)); [|lia].
    reflexivity.
  - intros j sym' Hj Hsym'.
    pose proof (sortedByValue_le l l_sorted j k sym' lo) as Hle.
    specialize (Hle ltac:(lia) Hsym' Hlo). lia.
Qed.

Lemma searchSymbols_past_end :
  (forall sym : Symbol, sym ∈ l -> Value sym < t) ->
  searchSymbols l t = notfound.
Proof using l_sorted.
  intros Hall. unfold searchSymbols.
  rewrite (Search_past_end Hall).
  rewrite Nat.leb_refl. reflexivity.
Qed.
End SearchSymbols.

Lemma adjustAddr_nonPIE (s : symbolizer) (addr : Z) :
  isPIE s = false -> addr <> 0 -> adjustAddr s addr = Some addr.
Proof.
  intros Hpie Hnz. unfold adjustAddr.
  destruct (Z.eqb_spec addr 0); [contradiction|]. rewrite Hpie. reflexivity.
Qed.

Lemma adjustAddr_PIE (s : symbolizer) (addr : Z) :
  isPIE s = true -> addr <> 0 -> memoryStart s <= addr ->
  adjustAddr s addr =
    Some (wrap64 (segmentOffset s + (addr - memoryStart s))).
Proof.
  intros Hpie Hnz Hge. unfold adjustAddr.
  destruct (Z.eqb_spec addr 0); [contradiction|]. rewrite Hpie.
  destruct (Z.ltb_spec addr (memoryStart s)); [lia|]. reflexivity.
Qed.

Lemma findSegment_none (progs : list ProgHeader) (fileOffset : Z)
    (d : ProgHeader) :
  (forall p : ProgHeader, p ∈ progs -> Off p <> fileOffset) ->
  findSegment progs fileOffset d = d.
Proof.
  induction progs as [|p rest IH]; intros Hnone; [reflexivity|].
  cbn [findSegment]. destruct (Z.eqb_spec (Off p) fileOffset) as [Heq|Hne].
  - exfalso. apply (Hnone p); [left|exact Heq].
  - apply IH. intros q Hq. apply Hnone. right. exact Hq.
Qed.

Lemma findSegment_first (progs : list ProgHeader) (fileOffset : Z)
    (d : ProgHeader) (i : nat) (p : ProgHeader) :
  firstAtOffset progs fileOffset i p -> findSegment progs fileOffset d = p.
Proof.
  revert i. induction progs as [|q rest IH]; intros i (Hi & Hoff & Hfirst).
  - rewrite lookup_nil in Hi. discriminate.
  - cbn [findSegment]. destruct i as [|i]; simpl in Hi.
    + injection Hi as ->. rewrite (proj2 (Z.eqb_eq _ _) Hoff). reflexivity.
    + cbn [take] in Hfirst. apply Forall_cons in Hfirst as [Hne Hfirst].
      destruct (Z.eqb_spec (Off q) fileOffset) as [Heq|_]; [contradiction|].
      apply (IH i). split; [exact Hi|]. split; [exact Hoff|exact Hfirst].
Qed.

Lemma findSegment_cases (progs : list ProgHeader) (fileOffset : Z) :
  (forall p : ProgHeader, p ∈ progs -> Off p <> fileOffset)
  \/ exists (i : nat) (p : ProgHeader), firstAtOffset progs fileOffset i p.
Proof.
  induction progs as [|q rest IH].
  - left. intros p Hp. inversion Hp.
  - destruct (Z.eq_dec (Off q) fileOffset) as [Heq|Hne].
    + right. exists 0%nat, q. split; [reflexivity|]. split; [exact Heq|].
      constructor.
    + destruct IH as [Hnone|(i & p & Hi & Hoff & Hfirst)].
      * left. intros p Hp. apply elem_of_cons in Hp as [->|Hp];
          [exact Hne|exact (Hnone p Hp)].
      * right. exists (S i), p. split; [exact Hi|]. split; [exact Hoff|].
        cbn [take]. constructor; [exact Hne|exact Hfirst].
Qed.

Lemma newSymbolizer_no_header (f : File) (fileOffset memStart : Z)
    (syms : list Symbol) :
  Symbols f = inr syms ->
  (forall p : ProgHeader, p ∈ Progs f -> Off p <> fileOffset) ->
  newSymbolizer f fileOffset memStart =
    Err (LoadableSegmentNotFound fileOffset).
Proof.
  intros Hsyms Hnone. unfold newSymbolizer. rewrite Hsyms.
  rewrite (findSegment_none _ _ _ Hnone). reflexivity.
Qed.

Lemma newSymbolizer_first (f : File) (fileOffset memStart : Z)
    (syms : list Symbol) (i : nat) (p : ProgHeader) :
  Symbols f = inr syms ->
  firstAtOffset (Progs f) fileOffset i p ->
  newSymbolizer f fileOffset memStart =
    if PType p =? PT_LOAD
    then Ok {| symbols := SliceStable syms;
               segmentOffset := Off p;
               memoryStart := memStart;
               isPIE := Vaddr p =? Off p |}
    else Err (LoadableSegmentNotFound fileOffset).
Proof.
  intros Hsyms Hfirst. unfold newSymbolizer. rewrite Hsyms.
  rewrite (findSegment_first _ _ _ i p Hfirst).
  destruct (PType p =? PT_LOAD); reflexivity.
Qed.

Lemma newSymbolizer_fields (f : File) (fileOffset memStart : Z)
    (s : symbolizer) :
  newSymbolizer f fileOffset memStart = Ok s ->
  segmentOffset s = fileOffset /\ memoryStart s = memStart
  /\ sortedByValue (symbols s) = true.
Proof.
  intros Hnew. destruct (Symbols f) as [cause|syms] eqn:Hsyms.
  - unfold newSymbolizer in Hnew. rewrite Hsyms in Hnew. discriminate.
  - destruct (findSegment_cases (Progs f) fileOffset)
      as [Hnone|(i & p & Hfirst)].
    + rewrite (newSymbolizer_no_header f _ _ syms Hsyms Hnone) in Hnew.
      discriminate.
    + rewrite (newSymbolizer_first f _ _ syms i p Hsyms Hfirst) in Hnew.
      destruct (PType p =? PT_LOAD); [|discriminate].
      injection Hnew as <-. cbn.
      split; [exact (proj1 (proj2 Hfirst))|].
      split; [reflexivity|apply SliceStable_sorted].
Qed.

Lemma Forall_take_lookup {A : Type} (P : A -> Prop) (l : list A) (k : nat) :
  Forall P (take k l) ->
  forall (j : nat) (x : A), (j < k)%nat -> l !! j = Some x -> P x.
Proof.
  intros HF j x Hj Hx. rewrite Forall_lookup in HF.
  apply (HF j x). rewrite lookup_take_lt; [exact Hx|exact Hj].
Qed.

Lemma firstAtOffset_unique (progs : list ProgHeader) (fileOffset : Z)
    (i j : nat) (p q : ProgHeader) :
  firstAtOffset progs fileOffset i p -> firstAtOffset progs fileOffset j q ->
  i = j /\ p = q.
Proof.
  intros (Hi & Hp & Hbi) (Hj & Hq & Hbj).
  destruct (lt_eq_lt_dec i j) as [[Hlt|Heq]|Hgt].
  - exfalso. exact (Forall_take_lookup _ _ _ Hbj i p Hlt Hi Hp).
  - subst j. split; [reflexivity|congruence].
  - exfalso. exact (Forall_take_lookup _ _ _ Hbi j q Hgt Hj Hq).
Qed.

(** *** Claims about [Addr2FuncName] and [newSymbolizer] *)

(** C6, as stated, fails on ties: [data_start] and [__data_start] carry the
    same value, the table is sorted, and the address equal to that value
    resolves to the first of the two, not to [__data_start]. *)
Lemma Addr2FuncName_exact_hit_tie :
  let s := {| symbols := [mkSymbol "main" 0x401136 0;
                          mkSymbol "data_start" 0x404000 0;
                          mkSymbol "__data_start" 0x404000 0];
              segmentOffset := 0x1000;
              memoryStart := 0x401000;
              isPIE := false |} in
  sortedByValue (symbols s) = true
  /\ mkSymbol "__data_start" 0x404000 0 ∈ symbols s
  /\ Addr2FuncName s 0x404000 = "data_start"
  /\ Addr2FuncName s 0x404000 <> Name (mkSymbol "__data_start" 0x404000 0).
Proof.
  cbn zeta. split; [reflexivity|]. split.
  - do 2 right. left.
  - split; [reflexivity|]. vm_compute. discriminate.
Qed.

(** C6 (amended): on a sorted table, when a nonzero address (on a PIE
    binary: not below [memoryStart], and taken after translation) equals
    the recorded value of some symbol, [Addr2FuncName] returns the name of
    the first symbol in table order that carries this value. *)
Theorem Addr2FuncName_exact_hit (s : symbolizer) (addr t : Z) (k : nat)
    (sym : Symbol) :
  sortedByValue (symbols s) = true ->
  adjustAddr s addr = Some t ->
  firstWithValue (symbols s) t k sym ->
  Addr2FuncName s addr = Name sym.
Proof.
  intros Hsorted Hadj (Hk & Hval & Hfirst).
  unfold Addr2FuncName. rewrite Hadj.
  apply (searchSymbols_exact _ _ Hsorted k sym Hk Hval).
  exact (Forall_take_lookup _ _ _ Hfirst).
Qed.

Lemma Addr2FuncName_exact_hit_witness :
  let s := {| symbols := [mkSymbol "main" 0x1000 0; mkSymbol "fib" 0x1010 0];
              segmentOffset := 0x1000;
              memoryStart := 0x401000;
              isPIE := true |} in
  Addr2FuncName s 0x401010 = "fib".
Proof.
  cbn zeta.
  apply (Addr2FuncName_exact_hit _ 0x401010 0x1010 1%nat
           (mkSymbol "fib" 0x1010 0)).
  - reflexivity.
  - reflexivity.
  - split; [reflexivity|]. split; [reflexivity|].
    cbn. repeat constructor. cbn. lia.
Defined.

(** C7: on a sorted table, an address strictly between the values of two
    adjacent symbols resolves to the name of the lower one when its value
    is nonzero, and to the sentinel when its value is zero; an address above
    every value in the table resolves to the sentinel. *)
Theorem Addr2FuncName_between (s : symbolizer) (addr t : Z) :
  sortedByValue (symbols s) = true ->
  adjustAddr s addr = Some t ->
  (forall (k : nat) (lo hi : Symbol),
      symbols s !! k = Some lo -> symbols s !! (k + 1)%nat = Some hi ->
      Value lo < t < Value hi ->
      is_uint64 (Value lo) -> Value lo <> 0 ->
      Addr2FuncName s addr = Name lo)
  /\ (forall (k : nat) (lo hi : Symbol),
      symbols s !! k = Some lo -> symbols s !! (k + 1)%nat = Some hi ->
      Value lo < t < Value hi ->
      Value lo = 0 ->
      Addr2FuncName s addr = notfound)
  /\ ((forall sym : Symbol, sym ∈ symbols s -> Value sym < t) ->
      Addr2FuncName s addr = notfound).
Proof.
  intros Hsorted Hadj. unfold Addr2FuncName. rewrite Hadj.
  split; [|split].
  - intros k lo hi Hlo Hhi Hbetween Hrange Hnz.
    rewrite (searchSymbols_between _ _ Hsorted k lo hi Hlo Hhi Hbetween).
    destruct (Z.gtb_spec (Value lo) 0) as [_|Hle]; [reflexivity|].
    unfold is_uint64 in Hrange. lia.
  - intros k lo hi Hlo Hhi Hbetween Hz.
    rewrite (searchSymbols_between _ _ Hsorted k lo hi Hlo Hhi Hbetween).
    rewrite Hz. reflexivity.
  - intros Hall. exact (searchSymbols_past_end _ _ Hsorted Hall).
Qed.

Lemma Addr2FuncName_between_witness :
  let s := {| symbols := [mkSymbol "" 0 0;
                          mkSymbol "frame_dummy" 0x401120 0;
                          mkSymbol "fibNaive" 0x401126 0;
                          mkSymbol "main" 0x40115a 0];
              segmentOffset := 0x1000;
              memoryStart := 0x401000;
              isPIE := false |} in
  Addr2FuncName s 0x40112c = "fibNaive"
  /\ Addr2FuncName s 123 = notfound
  /\ Addr2FuncName s 94862440956340 = notfound.
Proof.
  cbn zeta. split; [|split].
  - refine (proj1 (Addr2FuncName_between _ 0x40112c 0x40112c _ _) 2%nat
              (mkSymbol "fibNaive" 0x401126 0) (mkSymbol "main" 0x40115a 0)
              _ _ _ _ _);
      try reflexivity; cbn; unfold is_uint64, uint64_modulus; lia.
  - refine (proj1 (proj2 (Addr2FuncName_between _ 123 123 _ _)) 0%nat
              (mkSymbol "" 0 0) (mkSymbol "frame_dummy" 0x401120 0)
              _ _ _ _);
      try reflexivity; cbn; lia.
  - refine (proj2 (proj2 (Addr2FuncName_between _ 94862440956340
                            94862440956340 _ _)) _); try reflexivity.
    intros sym Hsym. cbn in Hsym.
    repeat (apply elem_of_cons in Hsym as [->|Hsym]; [cbn; lia|]).
    inversion Hsym.
Defined.

(** C8: on a PIE symbolizer every address below [memoryStart] resolves to
    the sentinel; a nonzero address [a >= memoryStart] is searched in the
    table as [segmentOffset + (a - memoryStart)], computed in [uint64] (so
    exactly that sum whenever it fits 64 bits), where [segmentOffset] is
    the [fileOffset] the symbolizer was built with; and address 0 resolves
    to the sentinel on every symbolizer. *)
Theorem Addr2FuncName_PIE (s : symbolizer) :
  isPIE s = true ->
  (forall a : Z, a < memoryStart s -> Addr2FuncName s a = notfound)
  /\ (forall a : Z, memoryStart s <= a -> a <> 0 ->
        Addr2FuncName s a =
          searchSymbols (symbols s)
            (wrap64 (segmentOffset s + (a - memoryStart s))))
  /\ (forall a : Z, memoryStart s <= a -> a <> 0 ->
        is_uint64 (segmentOffset s + (a - memoryStart s)) ->
        Addr2FuncName s a =
          searchSymbols (symbols s) (segmentOffset s + (a - memoryStart s)))
  /\ (forall (f : File) (fileOffset memStart : Z),
        newSymbolizer f fileOffset memStart = Ok s ->
        segmentOffset s = fileOffset /\ memoryStart s = memStart)
  /\ (forall s' : symbolizer, Addr2FuncName s' 0 = notfound).
Proof.
  intros Hpie. split; [|split; [|split; [|split]]].
  - intros a Ha. unfold Addr2FuncName, adjustAddr. rewrite Hpie.
    destruct (a =? 0); [reflexivity|].
    destruct (Z.ltb_spec a (memoryStart s)); [reflexivity|lia].
  - intros a Hge Hnz. unfold Addr2FuncName.
    rewrite (adjustAddr_PIE s a Hpie Hnz Hge). reflexivity.
  - intros a Hge Hnz Hfits. unfold Addr2FuncName.
    rewrite (adjustAddr_PIE s a Hpie Hnz Hge).
    unfold wrap64. unfold is_uint64 in Hfits.
    rewrite Z.mod_small; [reflexivity|exact Hfits].
  - intros f fileOffset memStart Hnew.
    destruct (newSymbolizer_fields f fileOffset memStart s Hnew)
      as (Hoff & Hms & _).
    split; [exact Hoff|exact Hms].
  - intros s'. reflexivity.
Qed.

Lemma Addr2FuncName_PIE_witness :
  let f := {| Symbols := inr [mkSymbol "fib" 0x1010 0;
                              mkSymbol "main" 0x1000 0];
              Progs := [mkProgHeader PT_LOAD 0 0;
                        mkProgHeader PT_LOAD 0x1000 0x1000] |} in
  exists s : symbolizer,
    newSymbolizer f 0x1000 0x401000 = Ok s
    /\ isPIE s = true
    /\ Addr2FuncName s 123 = notfound
    /\ Addr2FuncName s 0x401010 = searchSymbols (symbols s) 0x1010
    /\ Addr2FuncName s 0x401010 = "fib"
    /\ Addr2FuncName s 0x401020 = notfound.
Proof.
  cbn zeta. eexists. split; [reflexivity|]. split; [reflexivity|].
  match goal with
  | |- Addr2FuncName ?s _ = _ /\ _ =>
      pose proof (Addr2FuncName_PIE s eq_refl) as (Hlow & _ & Hsum & _ & _)
  end.
  split; [apply Hlow; cbn; lia|].
  split; [|split; reflexivity].
  apply Hsum; cbn; unfold is_uint64, uint64_modulus; lia.
Defined.

(** With a header of another type at the offset in front of the loadable
    one, the loop stops at that header and construction reports that no
    loadable segment is at the offset. *)
Example newSymbolizer_segment_shadowed :
  let note := mkProgHeader 4 0x1000 0x1000 in
  let load := mkProgHeader PT_LOAD 0x1000 0x401000 in
  let f := {| Symbols := inr [mkSymbol "main" 0x401136 0];
              Progs := [note; load] |} in
  load ∈ Progs f /\ PType load = PT_LOAD /\ Off load = 0x1000
  /\ newSymbolizer f 0x1000 0x401000 = Err (LoadableSegmentNotFound 0x1000).
Proof.
  cbn zeta. split; [right; left|]. repeat split.
Qed.

(** C9, as stated, fails when the symbols of the file cannot be read:
    construction then fails with the failed-to-get-symbols error, with a
    loadable segment at the offset (where the claim has it succeed) as
    well as without one (where the claim has the segment-not-found
    error). *)
Lemma newSymbolizer_symbols_unreadable :
  let load := mkProgHeader PT_LOAD 0x1000 0x401000 in
  let g := {| Symbols := inl "no symbol section"; Progs := [load] |} in
  let h := {| Symbols := inl "no symbol section"; Progs := [] |} in
  (load ∈ Progs g /\ loadableAt 0x1000 load
   /\ newSymbolizer g 0x1000 0x401000 =
        Err (FailedToGetSymbols "no symbol section"))
  /\ ((forall p : ProgHeader, p ∈ Progs h -> ~ loadableAt 0x1000 p)
      /\ newSymbolizer h 0x1000 0x401000 =
           Err (FailedToGetSymbols "no symbol section")
      /\ newSymbolizer h 0x1000 0x401000 <>
           Err (LoadableSegmentNotFound 0x1000)).
Proof.
  cbn zeta. split.
  - split; [left|]. split; [split; reflexivity|reflexivity].
  - split; [intros p Hp; inversion Hp|]. split; [reflexivity|].
    cbn. discriminate.
Qed.

Lemma firstAtOffset_loadable (progs : list ProgHeader) (fileOffset : Z) :
  unshadowed progs fileOffset ->
  (exists p : ProgHeader, p ∈ progs /\ loadableAt fileOffset p) ->
  exists (i : nat) (p : ProgHeader),
    firstAtOffset progs fileOffset i p /\ PType p = PT_LOAD.
Proof.
  intros Hun (p & Hin & Hload).
  apply list_elem_of_lookup in Hin as (j & Hj).
  destruct (findSegment_cases progs fileOffset)
    as [Hnone|(i & q & Hfirst)].
  - exfalso. apply (Hnone p (list_elem_of_lookup_2 _ _ _ Hj)).
    exact (proj2 Hload).
  - exists i, q. split; [exact Hfirst|].
    destruct Hfirst as (Hi & Hoff & Hbefore).
    destruct (lt_eq_lt_dec i j) as [[Hlt|Heq]|Hgt].
    + exact (Hun i j q p Hlt Hi Hj Hoff Hload).
    + subst j. assert (q = p) as -> by congruence. exact (proj1 Hload).
    + exfalso.
      exact (Forall_take_lookup _ _ _ Hbefore j p Hgt Hj (proj2 Hload)).
Qed.

(** C9 (amended): when the symbols cannot be read, construction fails with
    the failed-to-get-symbols error.  When they are read, and no header of
    another type at the offset stands in front of a loadable segment at
    the offset, construction fails with the segment-not-found error
    exactly when the program headers contain no loadable segment whose
    offset equals [fileOffset]; when there is one, construction succeeds,
    uses the first of them, and sets [isPIE] iff the virtual address of
    that segment equals its file offset. *)
Theorem newSymbolizer_segment (f : File) (fileOffset memStart : Z) :
  (forall cause : string, Symbols f = inl cause ->
      newSymbolizer f fileOffset memStart = Err (FailedToGetSymbols cause))
  /\ (forall syms : list Symbol, Symbols f = inr syms ->
      unshadowed (Progs f) fileOffset ->
      (newSymbolizer f fileOffset memStart =
         Err (LoadableSegmentNotFound fileOffset)
       <-> ~ exists p : ProgHeader,
             p ∈ Progs f /\ loadableAt fileOffset p)
      /\ ((exists p : ProgHeader, p ∈ Progs f /\ loadableAt fileOffset p) ->
          exists (i : nat) (p : ProgHeader) (s : symbolizer),
            firstAtOffset (Progs f) fileOffset i p
            /\ loadableAt fileOffset p
            /\ newSymbolizer f fileOffset memStart = Ok s
            /\ symbols s = SliceStable syms
            /\ segmentOffset s = Off p
            /\ memoryStart s = memStart
            /\ (isPIE s = true <-> Vaddr p = Off p))).
Proof.
  split.
  - intros cause Hsyms. unfold newSymbolizer. rewrite Hsyms. reflexivity.
  - intros syms Hsyms Hun.
    assert (Hok : (exists p : ProgHeader,
                      p ∈ Progs f /\ loadableAt fileOffset p) ->
              exists (i : nat) (p : ProgHeader) (s : symbolizer),
                firstAtOffset (Progs f) fileOffset i p
                /\ loadableAt fileOffset p
                /\ newSymbolizer f fileOffset memStart = Ok s
                /\ symbols s = SliceStable syms
                /\ segmentOffset s = Off p
                /\ memoryStart s = memStart
                /\ (isPIE s = true <-> Vaddr p = Off p)).
    { intros Hex.
      destruct (firstAtOffset_loadable _ _ Hun Hex) as (i & p & Hfirst & Hty).
      exists i, p. eexists. split; [exact Hfirst|].
      split; [split; [exact Hty|exact (proj1 (proj2 Hfirst))]|].
      rewrite (newSymbolizer_first f _ _ syms i p Hsyms Hfirst).
      rewrite (proj2 (Z.eqb_eq _ _) Hty).
      split; [reflexivity|]. cbn.
      repeat (split; [reflexivity|]). apply Z.eqb_eq. }
    split; [|exact Hok]. split.
    + intros Herr Hex.
      destruct (Hok Hex) as (i & p & s & _ & _ & Hnew & _).
      rewrite Hnew in Herr. discriminate.
    + intros Hno.
      destruct (findSegment_cases (Progs f) fileOffset)
        as [Hnone|(i & p & Hfirst)].
      * exact (newSymbolizer_no_header f _ _ syms Hsyms Hnone).
      * rewrite (newSymbolizer_first f _ _ syms i p Hsyms Hfirst).
        destruct (Z.eqb_spec (PType p) PT_LOAD) as [Hload|_];
          [|reflexivity].
        exfalso. apply Hno. exists p.
        destruct Hfirst as (Hi & Hoff & _).
        split; [exact (list_elem_of_lookup_2 _ _ _ Hi)|].
        split; [exact Hload|exact Hoff].
Qed.

Lemma newSymbolizer_segment_witness :
  let load := mkProgHeader PT_LOAD 0x1000 0x1000 in
  let f := {| Symbols := inr [mkSymbol "fib" 0x1010 0;
                              mkSymbol "main" 0x1000 0];
              Progs := [mkProgHeader PT_LOAD 0 0; load] |} in
  let g := {| Symbols := inl "no symbol section"; Progs := [load] |} in
  (exists (i : nat) (p : ProgHeader) (s : symbolizer),
      firstAtOffset (Progs f) 0x1000 i p
      /\ loadableAt 0x1000 p
      /\ newSymbolizer f 0x1000 0x401000 = Ok s
      /\ symbols s = SliceStable [mkSymbol "fib" 0x1010 0;
                                  mkSymbol "main" 0x1000 0]
      /\ segmentOffset s = Off p
      /\ memoryStart s = 0x401000
      /\ (isPIE s = true <-> Vaddr p = Off p))
  /\ newSymbolizer f 0x2000 0x401000 = Err (LoadableSegmentNotFound 0x2000)
  /\ newSymbolizer g 0x1000 0x401000 =
       Err (FailedToGetSymbols "no symbol section").
Proof.
  intros load f g.
  assert (Hun : forall fileOffset : Z, unshadowed (Progs f) fileOffset).
  { intros fileOffset i j q p Hij Hi Hj Hoff Hload.
    destruct i as [|[|i]]; cbn in Hi; try discriminate;
      injection Hi as <-; reflexivity. }
  split; [|split].
  - apply (proj2 (proj2 (newSymbolizer_segment f 0x1000 0x401000) _ eq_refl
                    (Hun 0x1000))).
    exists load. split; [right; left|]. split; reflexivity.
  - apply (proj1 (proj2 (newSymbolizer_segment f 0x2000 0x401000) _ eq_refl
                    (Hun 0x2000))).
    intros (p & Hp & _ & Hoff). cbn in Hp.
    repeat (apply elem_of_cons in Hp as [->|Hp]; [cbn in Hoff; lia|]).
    inversion Hp.
  - exact (proj1 (newSymbolizer_segment g 0x1000 0x401000) _ eq_refl).
Defined.

(** ** Profile assembly *)

(** *** The computation type *)

Lemma valueOf_ret {A} (a : A) : valueOf (ret a) = Some a.
Proof. reflexivity. Qed.

Lemma valueOf_bind {A B} (m : M A) (k : A -> M B) :
  valueOf (bind m k) = valueOf m ≫= (fun a => valueOf (k a)).
Proof.
  unfold valueOf, bind. destruct m as [[a out]|]; [|reflexivity].
  cbn. destruct (k a) as [[b out']|]; reflexivity.
Qed.

Lemma valueOf_emit_bind {B} (e : Event) (k : unit -> M B) :
  valueOf (bind (emit e) k) = valueOf (k tt).
Proof. rewrite valueOf_bind. reflexivity. Qed.

Lemma valueOf_Some {A} (m : M A) (a : A) :
  valueOf m = Some a <-> exists out, m = Some (a, out).
Proof.
  unfold valueOf. destruct m as [[a' out]|]; cbn.
  - split.
    + intros [= ->]. exists out. reflexivity.
    + intros (out' & [= -> _]). reflexivity.
  - split; [discriminate|]. intros (out & H). discriminate.
Qed.

(** *** [mappingForAddr] *)

Lemma mappingForAddr_spec (store : MappingStore) (mm : list MappingPtr)
    (addr : Z) :
  validMappings store mm ->
  exists r : option MappingPtr,
    mappingForAddr store mm addr = Some (r, [])
    /\ firstContaining store mm addr r.
Proof.
  induction mm as [|p rest IH]; intros Hvalid.
  - exists None. split; [reflexivity|]. constructor.
  - apply Forall_cons in Hvalid as [[m Hm] Hvalid].
    cbn [mappingForAddr]. rewrite Hm.
    destruct (Z.leb_spec (Mapping.Start m) addr) as [Hs|Hs];
      [destruct (Z.geb_spec (Mapping.Limit m) addr) as [Hl|Hl]|]; cbn [andb].
    + exists (Some p). split; [reflexivity|].
      exists 0%nat, m. split; [reflexivity|]. split; [exact Hm|].
      split; [split; lia|constructor].
    + destruct (IH Hvalid) as (r & Hr & Hfirst). exists r.
      split; [exact Hr|].
      assert (Hmiss : forall mq, store !! p = Some mq -> ~ contains mq addr).
      { intros mq Hmq. rewrite Hm in Hmq. injection Hmq as <-.
        unfold contains. lia. }
      destruct r as [q|]; cbn [firstContaining] in *.
      * destruct Hfirst as (i & mq & Hi & Hq & Hc & Hbefore).
        exists (S i), mq. split; [exact Hi|]. split; [exact Hq|].
        split; [exact Hc|]. cbn [take]. constructor; assumption.
      * constructor; assumption.
    + destruct (IH Hvalid) as (r & Hr & Hfirst). exists r.
      split; [exact Hr|].
      assert (Hmiss : forall mq, store !! p = Some mq -> ~ contains mq addr).
      { intros mq Hmq. rewrite Hm in Hmq. injection Hmq as <-.
        unfold contains. lia. }
      destruct r as [q|]; cbn [firstContaining] in *.
      * destruct Hfirst as (i & mq & Hi & Hq & Hc & Hbefore).
        exists (S i), mq. split; [exact Hi|]. split; [exact Hq|].
        split; [exact Hc|]. cbn [take]. constructor; assumption.
      * constructor; assumption.
Qed.

(** *** The loop over the addresses of a stack *)

Lemma Ext_refl (st : State) : Ext st st.
Proof.
  split; [exists []; rewrite app_nil_r; reflexivity|reflexivity].
Qed.

Lemma Ext_trans (st1 st2 st3 : State) : Ext st1 st2 -> Ext st2 st3 -> Ext st1 st3.
Proof.
  intros [(e1 & H1) Hm1] [(e2 & H2) Hm2]. split.
  - exists (e1 ++ e2). rewrite H2, H1, app_assoc. reflexivity.
  - etrans; eassumption.
Qed.

Lemma InPass_Ext (pid : Z) (st st' : State) (l : Location.t) :
  Ext st st' -> InPass pid st l -> InPass pid st' l.
Proof.
  intros [(extra & Hl) Hm] (i & Hidx & Hloc). exists i. split.
  - exact (lookup_weaken _ _ _ _ Hidx Hm).
  - rewrite Hl. apply lookup_app_l_Some. exact Hloc.
Qed.

Lemma visitAddr_spec (store : MappingStore) (pid : Z) (mm : list MappingPtr)
    (n0 : nat) (st : State) (sl : list Location.t) (addr : Z) :
  validMappings store mm -> Inv store pid mm n0 st ->
  exists (st' : State) (ls : list Location.t),
    valueOf (visitAddr store pid mm (st, sl) addr) = Some (st', sl ++ ls)
    /\ Inv store pid mm n0 st' /\ Ext st st'
    /\ samples st' = samples st
    /\ Location.Address <$> ls = nonzero [addr]
    /\ Forall (InPass pid st') ls.
Proof.
  intros Hvalid HInv. unfold visitAddr, nonzero.
  destruct (Z.eqb_spec addr 0) as [Hz|Hnz].
  - exists st, []. rewrite app_nil_r. subst addr.
    split; [reflexivity|]. split; [exact HInv|]. split; [apply Ext_refl|].
    split; [reflexivity|]. split; [reflexivity|constructor].
  - rewrite filter_cons_True by exact Hnz. rewrite filter_nil.
    destruct (locationIndices st !! (pid, addr)) as [locIndex|] eqn:Hidx.
    + destruct (inv_idx _ _ _ _ _ HInv _ _ Hidx) as (Hn0 & l & Hl & Hk).
      rewrite Hl. exists st, [l]. injection Hk as Haddr.
      split; [reflexivity|]. split; [exact HInv|]. split; [apply Ext_refl|].
      split; [reflexivity|]. split; [cbn; rewrite <- Haddr; reflexivity|].
      constructor; [|constructor]. exists locIndex.
      rewrite <- Haddr. split; assumption.
    + destruct (mappingForAddr_spec store mm addr Hvalid) as (m & Hm & _).
      assert (Hvm : valueOf (mappingForAddr store mm addr) = Some m)
        by (rewrite Hm; reflexivity).
      rewrite valueOf_bind, Hvm. cbn [mbind option_bind].
      rewrite valueOf_bind.
      assert (Hemit : valueOf (if m is None then emit (LogNoMapping addr)
                               else ret tt) = Some tt)
        by (destruct m; reflexivity).
      rewrite Hemit. cbn [mbind option_bind].
      set (loc := {| Location.ID := Z.of_nat (length (locations st) + 1);
                     Location.Address := addr;
                     Location.Mapping := m |}).
      cbn [locations]. rewrite list_lookup_middle by reflexivity.
      set (st' := {| locations := locations st ++ [loc];
                     samples := samples st;
                     locationIndices :=
                       <[(pid, addr) := length (locations st)]>
                         (locationIndices st) |}).
      exists st', [loc].
      split; [reflexivity|].
      assert (HExt : Ext st st').
      { split; [exists [loc]; reflexivity|].
        apply insert_subseteq. exact Hidx. }
      split; [|split; [exact HExt|]].
      * constructor.
        -- cbn. rewrite length_app. pose proof (inv_len _ _ _ _ _ HInv). lia.
        -- intros k i Hk. cbn in Hk.
           destruct (decide (k = (pid, addr))) as [->|Hne].
           ++ rewrite lookup_insert_eq in Hk. injection Hk as <-.
              split; [exact (inv_len _ _ _ _ _ HInv)|].
              exists loc. split; [|reflexivity].
              cbn. apply list_lookup_middle. reflexivity.
           ++ rewrite lookup_insert_ne in Hk by congruence.
              destruct (inv_idx _ _ _ _ _ HInv _ _ Hk) as (Hn0 & l & Hl & Hkl).
              split; [exact Hn0|]. exists l. split; [|exact Hkl].
              cbn. apply lookup_app_l_Some. exact Hl.
        -- intros i l Hi Hl. cbn in Hl.
           apply lookup_app_Some in Hl as [Hl|[Hlen Hl]].
           ++ destruct (inv_loc _ _ _ _ _ HInv i l Hi Hl)
                as (Hil & Hid & Hmap & Hnzl).
              split; [|split; [exact Hid|split; [exact Hmap|exact Hnzl]]].
              cbn. rewrite lookup_insert_ne; [exact Hil|].
              intros [= Heq]. rewrite Heq in Hidx. rewrite Hidx in Hil.
              discriminate.
           ++ destruct (i - length (locations st))%nat as [|j] eqn:Hj;
                [|destruct j; discriminate].
              cbn in Hl. injection Hl as <-.
              assert (i = length (locations st)) by lia. subst i.
              split; [cbn; apply lookup_insert_eq|].
              split; [reflexivity|].
              split; [exact Hvm|exact Hnz].
      * split; [reflexivity|]. split; [reflexivity|].
        constructor; [|constructor]. exists (length (locations st)).
        split; [cbn; apply lookup_insert_eq|].
        cbn. apply list_lookup_middle. reflexivity.
Qed.

Lemma nonzero_cons (addr : Z) (stack : list Z) :
  nonzero (addr :: stack) = nonzero [addr] ++ nonzero stack.
Proof.
  unfold nonzero. rewrite !filter_cons, filter_nil.
  destruct (decide (addr <> 0)); reflexivity.
Qed.

Lemma foldM_visitAddr_spec (store : MappingStore) (pid : Z)
    (mm : list MappingPtr) (n0 : nat) (stack : list Z) :
  validMappings store mm ->
  forall (st : State) (sl : list Location.t),
    Inv store pid mm n0 st ->
    exists (st' : State) (ls : list Location.t),
      valueOf (foldM (visitAddr store pid mm) stack (st, sl)) =
        Some (st', sl ++ ls)
      /\ Inv store pid mm n0 st' /\ Ext st st'
      /\ samples st' = samples st
      /\ Location.Address <$> ls = nonzero stack
      /\ Forall (InPass pid st') ls.
Proof.
  intros Hvalid. induction stack as [|addr stack IH]; intros st sl HInv.
  - exists st, []. rewrite app_nil_r.
    split; [reflexivity|]. split; [exact HInv|]. split; [apply Ext_refl|].
    split; [reflexivity|]. split; [reflexivity|constructor].
  - cbn [foldM]. rewrite valueOf_bind.
    destruct (visitAddr_spec store pid mm n0 st sl addr Hvalid HInv)
      as (st1 & l1 & Hv1 & HInv1 & HExt1 & Hs1 & Ha1 & Hp1).
    rewrite Hv1. cbn [mbind option_bind].
    destruct (IH st1 (sl ++ l1) HInv1)
      as (st2 & l2 & Hv2 & HInv2 & HExt2 & Hs2 & Ha2 & Hp2).
    exists st2, (l1 ++ l2). rewrite app_assoc.
    split; [exact Hv2|]. split; [exact HInv2|].
    split; [exact (Ext_trans _ _ _ HExt1 HExt2)|].
    split; [congruence|]. split.
    + rewrite fmap_app, Ha1, Ha2. symmetry. apply nonzero_cons.
    + apply Forall_app. split; [|exact Hp2].
      eapply Forall_impl; [exact Hp1|].
      intros l Hl. exact (InPass_Ext _ _ _ _ HExt2 Hl).
Qed.

(** *** The loop over the keys of the counts map *)

(** A key that gets no Sample leaves the state as it was. *)
Lemma processKey_skip (store : MappingStore) (stackTraces : StackTraces)
    (pid : Z) (mm : list MappingPtr) (st : State)
    (entry : stackCountKey * Z) :
  shapeOf stackTraces entry = None ->
  valueOf (processKey store stackTraces pid mm st entry) = Some st.
Proof.
  destruct entry as [key seen]. unfold shapeOf, readStacks, processKey.
  cbn [fst snd]. rewrite valueOf_emit_bind.
  destruct (stackTraces (UserStackID key)) as [|userBytes]; [reflexivity|].
  destruct (binary_Read userBytes stackDepth) as [userStack|];
    [|reflexivity].
  rewrite valueOf_emit_bind.
  destruct (stackTraces (KernelStackID key)); [reflexivity|discriminate].
Qed.

Lemma processKey_spec (store : MappingStore) (stackTraces : StackTraces)
    (pid : Z) (mm : list MappingPtr) (n0 : nat) (st : State)
    (entry : stackCountKey * Z) :
  validMappings store mm -> Inv store pid mm n0 st ->
  exists (st' : State) (news : list Sample.t),
    valueOf (processKey store stackTraces pid mm st entry) = Some st'
    /\ Inv store pid mm n0 st' /\ Ext st st'
    /\ samples st' = samples st ++ news
    /\ sampleShape <$> news = option_list (shapeOf stackTraces entry)
    /\ Forall (fun s => Forall (InPass pid st') (Sample.Location s)) news.
Proof.
  intros Hvalid HInv.
  destruct (shapeOf stackTraces entry) as [shape|] eqn:Hshape.
  - destruct entry as [key seen].
    unfold shapeOf, readStacks in Hshape. unfold processKey.
    cbn [fst snd] in Hshape. rewrite valueOf_emit_bind.
    destruct (stackTraces (UserStackID key)) as [|userBytes];
      [discriminate|].
    destruct (binary_Read userBytes stackDepth) as [userStack|];
      [|discriminate].
    rewrite valueOf_emit_bind.
    destruct (stackTraces (KernelStackID key)) as [|kernelBytes];
      [discriminate|].
    injection Hshape as <-.
    rewrite valueOf_bind.
    assert (Hk : valueOf
              match binary_Read kernelBytes stackDepth with
              | Some kernelStack =>
                  emit (PrintStack (KernelStackID key)
                          (tracedAddresses kernelStack))
              | None => emit LogKernelReadFailed
              end = Some tt)
      by (destruct (binary_Read kernelBytes stackDepth); reflexivity).
    rewrite Hk. cbn [mbind option_bind]. rewrite valueOf_bind.
    destruct (foldM_visitAddr_spec store pid mm n0 userStack Hvalid st []
                HInv)
      as (st1 & ls & Hv & HInv1 & HExt1 & Hs1 & Ha & Hp).
    rewrite Hv. cbn [mbind option_bind app].
    set (s := {| Sample.Value := [int64_of_uint64 seen];
                 Sample.Location := ls |}).
    set (st' := {| locations := locations st1;
                   samples := samples st1 ++ [s];
                   locationIndices := locationIndices st1 |}).
    assert (HExt' : Ext st1 st').
    { split; [exists []; cbn; rewrite app_nil_r; reflexivity|reflexivity]. }
    exists st', [s]. split; [reflexivity|]. split.
    { destruct HInv1 as [Hlen Hidx Hloc]. constructor; assumption. }
    split; [exact (Ext_trans _ _ _ HExt1 HExt')|].
    split; [cbn; rewrite Hs1; reflexivity|].
    split; [cbn; unfold sampleShape; cbn; rewrite Ha; reflexivity|].
    constructor; [|constructor]. cbn.
    eapply Forall_impl; [exact Hp|].
    intros l Hl. exact (InPass_Ext _ _ _ _ HExt' Hl).
  - exists st, []. rewrite app_nil_r.
    split; [exact (processKey_skip _ _ _ _ _ _ Hshape)|].
    split; [exact HInv|]. split; [apply Ext_refl|].
    split; [reflexivity|]. split; [reflexivity|constructor].
Qed.

Lemma expectedShapes_cons (stackTraces : StackTraces)
    (entry : stackCountKey * Z) (counts : list (stackCountKey * Z)) :
  expectedShapes stackTraces (entry :: counts) =
    option_list (shapeOf stackTraces entry)
      ++ expectedShapes stackTraces counts.
Proof.
  unfold expectedShapes. cbn [omap list_omap].
  destruct (shapeOf stackTraces entry); reflexivity.
Qed.

Lemma expectedShapes_app (stackTraces : StackTraces)
    (pre post : list (stackCountKey * Z)) :
  expectedShapes stackTraces (pre ++ post) =
    expectedShapes stackTraces pre ++ expectedShapes stackTraces post.
Proof.
  induction pre as [|e pre IH]; [reflexivity|].
  cbn [app]. rewrite !expectedShapes_cons, IH, app_assoc. reflexivity.
Qed.

Lemma foldM_processKey_spec (store : MappingStore)
    (stackTraces : StackTraces) (pid : Z) (mm : list MappingPtr) (n0 : nat)
    (counts : list (stackCountKey * Z)) :
  validMappings store mm ->
  forall st : State,
    Inv store pid mm n0 st ->
    exists (st' : State) (news : list Sample.t),
      valueOf (foldM (processKey store stackTraces pid mm) counts st) =
        Some st'
      /\ Inv store pid mm n0 st' /\ Ext st st'
      /\ samples st' = samples st ++ news
      /\ sampleShape <$> news = expectedShapes stackTraces counts
      /\ Forall (fun s => Forall (InPass pid st') (Sample.Location s)) news.
Proof.
  intros Hvalid. induction counts as [|entry counts IH]; intros st HInv.
  - exists st, []. rewrite app_nil_r.
    split; [reflexivity|]. split; [exact HInv|]. split; [apply Ext_refl|].
    split; [reflexivity|]. split; [reflexivity|constructor].
  - cbn [foldM]. rewrite valueOf_bind.
    destruct (processKey_spec store stackTraces pid mm n0 st entry Hvalid
                HInv)
      as (st1 & n1 & Hv1 & HInv1 & HExt1 & Hs1 & Hsh1 & Hp1).
    rewrite Hv1. cbn [mbind option_bind].
    destruct (IH st1 HInv1)
      as (st2 & n2 & Hv2 & HInv2 & HExt2 & Hs2 & Hsh2 & Hp2).
    exists st2, (n1 ++ n2).
    split; [exact Hv2|]. split; [exact HInv2|].
    split; [exact (Ext_trans _ _ _ HExt1 HExt2)|].
    split; [rewrite Hs2, Hs1, app_assoc; reflexivity|]. split.
    + rewrite fmap_app, Hsh1, Hsh2, expectedShapes_cons. reflexivity.
    + apply Forall_app. split; [|exact Hp2].
      eapply Forall_impl; [exact Hp1|]. intros s Hs.
      eapply Forall_impl; [exact Hs|].
      intros l Hl. exact (InPass_Ext _ _ _ _ HExt2 Hl).
Qed.

Lemma foldM_app {A S : Type} (f : S -> A -> M S) (l1 l2 : list A) (s : S) :
  valueOf (foldM f (l1 ++ l2) s) =
    valueOf (foldM f l1 s) ≫= (fun s' => valueOf (foldM f l2 s')).
Proof.
  revert s. induction l1 as [|a l1 IH]; intros s; [reflexivity|].
  cbn [app foldM]. rewrite !valueOf_bind.
  destruct (valueOf (f s a)) as [s1|]; [|reflexivity].
  cbn [mbind option_bind]. apply IH.
Qed.

(** Keys that get no Sample can be left out of the iteration. *)
Lemma foldM_processKey_skip (store : MappingStore)
    (stackTraces : StackTraces) (pid : Z) (mm : list MappingPtr)
    (pre post : list (stackCountKey * Z)) (entry : stackCountKey * Z)
    (st : State) :
  shapeOf stackTraces entry = None ->
  valueOf (foldM (processKey store stackTraces pid mm)
             (pre ++ entry :: post) st) =
  valueOf (foldM (processKey store stackTraces pid mm) (pre ++ post) st).
Proof.
  intros Hskip. rewrite !foldM_app.
  destruct (valueOf (foldM (processKey store stackTraces pid mm) pre st))
    as [st1|]; [|reflexivity].
  cbn [mbind option_bind foldM]. rewrite valueOf_bind.
  rewrite (processKey_skip _ _ _ _ _ _ Hskip). reflexivity.
Qed.

(** *** Assigning the mapping ids *)

Lemma setID_setID (m : Mapping.t) (a b : Z) :
  Mapping.setID (Mapping.setID m a) b = Mapping.setID m b.
Proof. reflexivity. Qed.

Lemma validMappings_insert (store : MappingStore) (mm : list MappingPtr)
    (p : MappingPtr) (m : Mapping.t) :
  validMappings store mm -> validMappings (<[p := m]> store) mm.
Proof.
  unfold validMappings. intros Hvalid.
  eapply Forall_impl; [exact Hvalid|]. intros q [mq Hq].
  destruct (decide (p = q)) as [->|Hne].
  - rewrite lookup_insert_eq. eexists. reflexivity.
  - rewrite lookup_insert_ne by exact Hne. exists mq. exact Hq.
Qed.

(** A mapping gets the number of the last position that holds its
    pointer; mappings outside the slice are left alone; nothing but [ID]
    is written. *)
Lemma assignIDs_spec (mm : list MappingPtr) :
  forall (i : nat) (store : MappingStore),
    validMappings store mm ->
    exists store' : MappingStore,
      valueOf (assignIDs mm i store) = Some store'
      /\ (forall p : MappingPtr, p ∉ mm -> store' !! p = store !! p)
      /\ (forall (j : nat) (p : MappingPtr) (m : Mapping.t),
            mm !! j = Some p -> p ∉ drop (S j) mm -> store !! p = Some m ->
            store' !! p = Some (Mapping.setID m (Z.of_nat (i + j + 1))))
      /\ (forall (p : MappingPtr) (m : Mapping.t),
            store !! p = Some m ->
            exists id : Z, store' !! p = Some (Mapping.setID m id)).
Proof.
  induction mm as [|p rest IH]; intros i store Hvalid.
  - exists store. split; [reflexivity|]. split; [reflexivity|]. split.
    + intros j p m Hj. rewrite lookup_nil in Hj. discriminate.
    + intros p m Hp. exists (Mapping.ID m). rewrite Hp.
      destruct m; reflexivity.
  - apply Forall_cons in Hvalid as [[m Hm] Hvalid].
    cbn [assignIDs]. rewrite Hm.
    set (store1 := <[p := Mapping.setID m (Z.of_nat (i + 1))]> store).
    destruct (IH (S i) store1 (validMappings_insert _ _ _ _ Hvalid))
      as (store' & Hv & Hout & Hlast & Hkeep).
    exists store'. split; [exact Hv|].
    assert (Hstore1 : forall q mq, store !! q = Some mq ->
              exists id, store1 !! q = Some (Mapping.setID mq id)).
    { intros q mq Hq. subst store1.
      destruct (decide (p = q)) as [->|Hne].
      - rewrite lookup_insert_eq. assert (mq = m) as -> by congruence.
        eexists. reflexivity.
      - rewrite lookup_insert_ne by exact Hne. exists (Mapping.ID mq).
        rewrite Hq. destruct mq; reflexivity. }
    split; [|split].
    + intros q Hq. apply not_elem_of_cons in Hq as [Hne Hq].
      rewrite (Hout q Hq). subst store1.
      rewrite lookup_insert_ne by congruence. reflexivity.
    + intros j q mq Hj Hlater Hq. destruct j as [|j]; cbn in Hj, Hlater.
      * injection Hj as <-. rewrite drop_0 in Hlater.
        rewrite (Hout p Hlater). subst store1. rewrite lookup_insert_eq.
        assert (mq = m) as -> by congruence.
        replace (i + 0 + 1)%nat with (i + 1)%nat by lia. reflexivity.
      * destruct (Hstore1 q mq Hq) as (id & Hq1).
        rewrite (Hlast j q _ Hj Hlater Hq1), setID_setID.
        replace (S i + j + 1)%nat with (i + S j + 1)%nat by lia.
        reflexivity.
    + intros q mq Hq. destruct (Hstore1 q mq Hq) as (id & Hq1).
      destruct (Hkeep q _ Hq1) as (id' & Hq'). exists id'.
      rewrite Hq', setID_setID. reflexivity.
Qed.

Lemma NoDup_lookup_not_later {A : Type} (l : list A) (j : nat) (x : A) :
  NoDup l -> l !! j = Some x -> x ∉ drop (S j) l.
Proof.
  intros Hnd Hj Hin. apply list_elem_of_lookup in Hin as (k & Hk).
  rewrite lookup_drop in Hk.
  pose proof (NoDup_lookup l j (S j + k) x Hnd Hj Hk). lia.
Qed.

(** *** [fillProfile] as a whole *)

Lemma Inv_init (store : MappingStore) (pid : Z) (mm : list MappingPtr)
    (locs : list Location.t) (smps : list Sample.t) :
  Inv store pid mm (length locs)
    {| locations := locs; samples := smps; locationIndices := ∅ |}.
Proof.
  constructor; cbn.
  - lia.
  - intros k i Hk. rewrite lookup_empty in Hk. discriminate.
  - intros i l Hi Hl. apply lookup_lt_Some in Hl. lia.
Qed.

Lemma fillProfile_spec (counts : list (stackCountKey * Z)) (itErr : bool)
    (stackTraces : StackTraces) (prof : Profile.t) (pid : Z)
    (mm : list MappingPtr) (store : MappingStore) :
  validMappings store mm ->
  exists (prof' : Profile.t) (store' : MappingStore)
         (created : list Location.t) (news : list Sample.t),
    valueOf (fillProfile counts itErr stackTraces prof pid mm store) =
      Some (prof', store')
    /\ Profile.Location prof' = Profile.Location prof ++ created
    /\ Profile.Sample prof' = Profile.Sample prof ++ news
    /\ Profile.Mapping prof' = mm
    /\ valueOf (assignIDs mm 0%nat store) = Some store'
    /\ sampleShape <$> news = expectedShapes stackTraces counts
    /\ (forall (s : Sample.t) (l : Location.t),
          s ∈ news -> l ∈ Sample.Location s -> l ∈ created)
    /\ (forall (j : nat) (l : Location.t),
          created !! j = Some l ->
          Location.ID l =
            Z.of_nat (length (Profile.Location prof) + j + 1)
          /\ Location.Address l <> 0
          /\ firstContaining store mm (Location.Address l)
               (Location.Mapping l))
    /\ NoDup (Location.Address <$> created).
Proof.
  intros Hvalid. unfold fillProfile.
  set (st0 := {| locations := Profile.Location prof;
                 samples := Profile.Sample prof;
                 locationIndices := ∅ |}).
  set (n0 := length (Profile.Location prof)).
  destruct (foldM_processKey_spec store stackTraces pid mm n0 counts Hvalid
              st0 (Inv_init _ _ _ _ _))
    as (st & news & Hv & HInv & [(created & Hlocs) Hsub] & Hs & Hsh & Hp).
  destruct (assignIDs_spec mm 0%nat store Hvalid)
    as (store' & Hids & _).
  subst st0. cbn [locations samples] in Hlocs, Hs.
  exists (Profile.setMapping
            (Profile.setSample (Profile.setLocation prof (locations st))
               (samples st)) mm), store', created, news.
  split.
  { rewrite valueOf_bind, Hv. cbn [mbind option_bind].
    rewrite valueOf_bind.
    assert (He : valueOf (if itErr then emit LogCountsFailed else ret tt) =
                 Some tt) by (destruct itErr; reflexivity).
    rewrite He. cbn [mbind option_bind].
    rewrite valueOf_bind, Hids. reflexivity. }
  split; [exact Hlocs|]. split; [exact Hs|]. split; [reflexivity|].
  split; [exact Hids|]. split; [exact Hsh|].
  assert (Hcreated : forall (j : nat) (l : Location.t),
            created !! j = Some l ->
            locations st !! (n0 + j)%nat = Some l).
  { intros j l Hj. rewrite Hlocs, lookup_app_r by (unfold n0; lia).
    replace (n0 + j - length (Profile.Location prof))%nat with j
      by (unfold n0; lia).
    exact Hj. }
  split; [|split].
  - intros s l Hs' Hl. rewrite Forall_forall in Hp.
    pose proof (Hp s Hs') as Hps. rewrite Forall_forall in Hps.
    destruct (Hps l Hl) as (i & Hidx & Hloc).
    destruct (inv_idx _ _ _ _ _ HInv _ _ Hidx) as (Hn0 & _).
    rewrite Hlocs, lookup_app_r in Hloc by (unfold n0 in Hn0; lia).
    exact (list_elem_of_lookup_2 _ _ _ Hloc).
  - intros j l Hj.
    destruct (inv_loc _ _ _ _ _ HInv (n0 + j)%nat l ltac:(lia)
                (Hcreated j l Hj)) as (_ & Hid & Hmap & Hnz).
    split; [exact Hid|]. split; [exact Hnz|].
    destruct (mappingForAddr_spec store mm (Location.Address l) Hvalid)
      as (r & Hr & Hfirst).
    rewrite Hr in Hmap. cbn in Hmap. injection Hmap as <-. exact Hfirst.
  - apply NoDup_alt. intros i j a Hi Hj.
    rewrite list_lookup_fmap in Hi, Hj.
    destruct (created !! i) as [li|] eqn:Hli; [|discriminate].
    destruct (created !! j) as [lj|] eqn:Hlj; [|discriminate].
    cbn in Hi, Hj. injection Hi as Hai. injection Hj as Haj.
    destruct (inv_loc _ _ _ _ _ HInv (n0 + i)%nat li ltac:(lia)
                (Hcreated i li Hli)) as (Hii & _).
    destruct (inv_loc _ _ _ _ _ HInv (n0 + j)%nat lj ltac:(lia)
                (Hcreated j lj Hlj)) as (Hij & _).
    rewrite Hai in Hii. rewrite Haj in Hij. rewrite Hii in Hij.
    injection Hij as Heq. lia.
Qed.

(** *** Stacks *)

Lemma decodeUint64s_length (n : nat) (bs : list Byte.byte) :
  length (decodeUint64s n bs) = n.
Proof.
  revert bs. induction n as [|n IH]; intros bs; [reflexivity|].
  cbn [decodeUint64s length]. rewrite IH. reflexivity.
Qed.

(** [binary.Read] succeeds exactly on buffers of at least [8 * n] bytes,
    and then yields [n] words. *)
Lemma binary_Read_Some (bs : list Byte.byte) (n : nat) (stack : list Z) :
  binary_Read bs n = Some stack ->
  (8 * n <= length bs)%nat /\ length stack = n.
Proof.
  unfold binary_Read. destruct (Nat.ltb_spec (length bs) (8 * n));
    [discriminate|].
  intros [= <-]. split; [assumption|apply decodeUint64s_length].
Qed.

Lemma binary_Read_short (bs : list Byte.byte) (n : nat) :
  (length bs < 8 * n)%nat -> binary_Read bs n = None.
Proof.
  intros Hlt. unfold binary_Read.
  destruct (Nat.ltb_spec (length bs) (8 * n)); [reflexivity|lia].
Qed.

(** What [LittleEndian_PutUint] writes, [LittleEndian_Uint] reads back. *)
Lemma byteZ_byteOfZ (z : Z) : byteZ (byteOfZ z) = z mod 256.
Proof.
  unfold byteZ, byteOfZ.
  pose proof (Z.mod_pos_bound z 256 ltac:(lia)) as Hb.
  destruct (Byte.of_N (Z.to_N (z mod 256))) as [b|] eqn:Hof;
    cbn [default from_option id].
  - rewrite (Byte.to_of_N _ Hof). lia.
  - apply Byte.of_N_None_iff in Hof. lia.
Qed.

Lemma byteZ_range (b : Byte.byte) : 0 <= byteZ b < 256.
Proof.
  unfold byteZ. pose proof (Byte.to_N_bounded b). lia.
Qed.

Lemma lor_shiftl_8 (a b : Z) :
  0 <= a < 256 -> 0 <= b -> Z.lor a (Z.shiftl b 8) = a + b * 256.
Proof.
  intros Ha Hb. rewrite Z.shiftl_mul_pow2 by lia.
  change (2 ^ 8) with 256.
  rewrite <- Z.lxor_lor.
  - symmetry. apply Z.add_nocarry_lxor.
    apply Z.bits_inj'. intros i Hi. rewrite Z.land_spec, Z.bits_0.
    destruct (Z.ltb_spec i 8) as [Hlt|Hge].
    + replace (b * 256) with (b * 2 ^ 8) by reflexivity.
      rewrite Z.mul_pow2_bits_low by lia. apply andb_false_r.
    + rewrite (Z.bits_above_log2 a i); [reflexivity|lia|].
      destruct (Z.eq_dec a 0) as [->|Hnz]; [cbn; lia|].
      assert (Z.log2 a < 8) by (apply Z.log2_lt_pow2; lia). lia.
  - apply Z.bits_inj'. intros i Hi. rewrite Z.land_spec, Z.bits_0.
    destruct (Z.ltb_spec i 8) as [Hlt|Hge].
    + replace (b * 256) with (b * 2 ^ 8) by reflexivity.
      rewrite Z.mul_pow2_bits_low by lia. apply andb_false_r.
    + rewrite (Z.bits_above_log2 a i); [reflexivity|lia|].
      destruct (Z.eq_dec a 0) as [->|Hnz]; [cbn; lia|].
      assert (Z.log2 a < 8) by (apply Z.log2_lt_pow2; lia). lia.
Qed.

Lemma LittleEndian_Uint_range (bs : list Byte.byte) :
  0 <= LittleEndian_Uint bs < 2 ^ (8 * Z.of_nat (length bs)).
Proof.
  induction bs as [|b bs IH]; [cbn; lia|].
  cbn [LittleEndian_Uint length].
  pose proof (byteZ_range b) as Hb.
  rewrite lor_shiftl_8 by lia.
  replace (8 * Z.of_nat (S (length bs))) with (8 * Z.of_nat (length bs) + 8)
    by lia.
  rewrite Z.pow_add_r by lia. change (2 ^ 8) with 256. nia.
Qed.

Lemma LittleEndian_PutUint_length (n : nat) (v : Z) :
  length (LittleEndian_PutUint n v) = n.
Proof.
  revert v. induction n as [|n IH]; intros v; [reflexivity|].
  cbn [LittleEndian_PutUint length]. rewrite IH. reflexivity.
Qed.

Lemma LittleEndian_Uint_PutUint (n : nat) (v : Z) :
  0 <= v ->
  LittleEndian_Uint (LittleEndian_PutUint n v) = v mod 2 ^ (8 * Z.of_nat n).
Proof.
  revert v. induction n as [|n IH]; intros v Hv.
  - cbn. rewrite Z.mod_1_r. reflexivity.
  - cbn [LittleEndian_PutUint LittleEndian_Uint].
    rewrite byteZ_byteOfZ, IH by (apply Z.shiftr_nonneg; exact Hv).
    rewrite Z.shiftr_div_pow2 by lia. change (2 ^ 8) with 256.
    pose proof (Z.mod_pos_bound v 256 ltac:(lia)).
    pose proof (Z.mod_pos_bound (v / 256) (2 ^ (8 * Z.of_nat n))
                  ltac:(apply Z.pow_pos_nonneg; lia)).
    rewrite lor_shiftl_8 by lia.
    replace (8 * Z.of_nat (S n)) with (8 + 8 * Z.of_nat n) by lia.
    rewrite Z.pow_add_r by lia. change (2 ^ 8) with 256.
    rewrite (Z.rem_mul_r v 256 (2 ^ (8 * Z.of_nat n))) by lia. lia.
Qed.

Lemma decodeUint64s_encodeStack (stack : list Z) (rest : list Byte.byte) :
  Forall is_uint64 stack ->
  decodeUint64s (length stack) (encodeStack stack ++ rest) = stack.
Proof.
  induction stack as [|v stack IH]; intros Hrange; [reflexivity|].
  apply Forall_cons in Hrange as [Hv Hrange].
  cbn [length decodeUint64s]. unfold encodeStack in *.
  cbn [map concat]. rewrite <- app_assoc.
  unfold LittleEndian_Uint64.
  rewrite take_app_length'
    by (symmetry; apply LittleEndian_PutUint_length).
  rewrite drop_app_length'
    by (symmetry; apply LittleEndian_PutUint_length).
  rewrite (IH Hrange). f_equal.
  unfold is_uint64, uint64_modulus in Hv.
  rewrite LittleEndian_Uint_PutUint by lia.
  apply Z.mod_small. exact Hv.
Qed.

Lemma encodeStack_length (stack : list Z) :
  length (encodeStack stack) = (8 * length stack)%nat.
Proof.
  unfold encodeStack. induction stack as [|v stack IH]; [reflexivity|].
  cbn [map concat length]. rewrite length_app, LittleEndian_PutUint_length, IH.
  lia.
Qed.

(** Every stack of [uint64] words is read back from its bytes. *)
Lemma binary_Read_encodeStack (stack : list Z) :
  Forall is_uint64 stack ->
  binary_Read (encodeStack stack) (length stack) = Some stack.
Proof.
  intros Hrange. unfold binary_Read. rewrite encodeStack_length.
  rewrite Nat.ltb_irrefl. f_equal.
  rewrite <- (app_nil_r (encodeStack stack)).
  apply decodeUint64s_encodeStack. exact Hrange.
Qed.

(** What is read is a list of [uint64] words. *)
Lemma decodeUint64s_range (n : nat) (bs : list Byte.byte) :
  Forall is_uint64 (decodeUint64s n bs).
Proof.
  revert bs. induction n as [|n IH]; intros bs; [constructor|].
  cbn [decodeUint64s]. constructor; [|apply IH].
  unfold LittleEndian_Uint64, is_uint64, uint64_modulus.
  pose proof (LittleEndian_Uint_range (take 8 bs)) as Hr.
  assert (Hlen : (length (take 8 bs) <= 8)%nat)
    by (rewrite length_take; lia).
  assert (2 ^ (8 * Z.of_nat (length (take 8 bs))) <= 2 ^ 64)
    by (apply Z.pow_le_mono_r; lia).
  lia.
Qed.

Lemma nonzero_zeros (rest : list Z) :
  forallb (fun a => a =? 0) rest = true -> nonzero rest = [].
Proof.
  induction rest as [|a rest IH]; [reflexivity|].
  cbn [forallb]. intros H. apply andb_prop in H as [Ha Hrest].
  apply Z.eqb_eq in Ha. subst a. unfold nonzero in *.
  rewrite filter_cons_False by (intros Hne; apply Hne; reflexivity).
  exact (IH Hrest).
Qed.

(** On a zero-padded stack, dropping the zero entries is cutting at the
    first zero. *)
Lemma nonzero_zeroPadded (stack : list Z) :
  zeroPadded stack = true -> nonzero stack = beforeFirstZero stack.
Proof.
  induction stack as [|a rest IH]; [reflexivity|].
  cbn [zeroPadded beforeFirstZero]. rewrite nonzero_cons.
  destruct (Z.eqb_spec a 0) as [->|Hnz]; intros Hpad.
  - rewrite (nonzero_zeros rest Hpad). reflexivity.
  - unfold nonzero at 1. rewrite filter_cons_True by exact Hnz.
    rewrite filter_nil. cbn [app]. rewrite (IH Hpad). reflexivity.
Qed.

Lemma padStack_zeroPadded (frames : list Z) :
  Forall (fun a => a <> 0) frames -> zeroPadded (padStack frames) = true.
Proof.
  unfold padStack. generalize (stackDepth - length frames)%nat as k.
  induction frames as [|a frames IH]; intros k Hnz.
  - cbn [app]. destruct k as [|k]; [reflexivity|].
    cbn. induction k as [|k IHk]; [reflexivity|exact IHk].
  - apply Forall_cons in Hnz as [Ha Hnz]. cbn [app zeroPadded].
    destruct (Z.eqb_spec a 0); [contradiction|]. exact (IH k Hnz).
Qed.

(** [tracedAddresses] cuts at the first zero, and yields nothing for a
    stack without a zero entry. *)
Lemma tracedLoop_spec (pre rest : list Z) :
  Forall (fun a => a <> 0) pre ->
  tracedLoop (pre ++ rest) rest (length pre) =
    if bool_decide (0 ∈ rest) then pre ++ beforeFirstZero rest else [].
Proof.
  revert pre. induction rest as [|a rest IH]; intros pre Hpre.
  - cbn. rewrite bool_decide_eq_false_2; [reflexivity|]. apply not_elem_of_nil.
  - cbn [tracedLoop beforeFirstZero].
    destruct (Z.eqb_spec a 0) as [->|Hnz].
    + rewrite bool_decide_eq_true_2 by left.
      rewrite take_app_length, app_nil_r. reflexivity.
    + replace (pre ++ a :: rest) with ((pre ++ [a]) ++ rest)
        by (rewrite <- app_assoc; reflexivity).
      replace (S (length pre)) with (length (pre ++ [a]))
        by (rewrite length_app; cbn; lia).
      rewrite IH.
      * destruct (decide (0 ∈ rest)) as [Hin|Hout].
        -- rewrite !bool_decide_eq_true_2;
             [rewrite <- app_assoc; reflexivity|right; exact Hin|exact Hin].
        -- rewrite !bool_decide_eq_false_2; [reflexivity| |exact Hout].
           intros Hin. apply elem_of_cons in Hin as [Hz|Hin];
             [congruence|contradiction].
      * apply Forall_app. split; [exact Hpre|].
        constructor; [exact Hnz|constructor].
Qed.

Lemma tracedAddresses_spec (stack : list Z) :
  tracedAddresses stack =
    if bool_decide (0 ∈ stack) then beforeFirstZero stack else [].
Proof. apply (tracedLoop_spec [] stack). constructor. Qed.

Lemma fmap_lookup_middle {A B : Type} (f : A -> B) (l : list A)
    (pre post : list B) (x : B) :
  f <$> l = pre ++ x :: post ->
  exists a : A, l !! length pre = Some a /\ f a = x.
Proof.
  intros Heq.
  assert (Hx : (f <$> l) !! length pre = Some x)
    by (rewrite Heq; apply list_lookup_middle; reflexivity).
  rewrite list_lookup_fmap in Hx.
  destruct (l !! length pre) as [a|]; [|discriminate].
  exists a. split; [reflexivity|]. cbn in Hx. congruence.
Qed.

Lemma NoDup_fmap_eq {A B : Type} (f : A -> B) (l : list A) (x y : A) :
  NoDup (f <$> l) -> x ∈ l -> y ∈ l -> f x = f y -> x = y.
Proof.
  intros Hnd Hx Hy Hf.
  apply list_elem_of_lookup in Hx as (i & Hi).
  apply list_elem_of_lookup in Hy as (j & Hj).
  assert (Hfi : (f <$> l) !! i = Some (f x))
    by (rewrite list_lookup_fmap, Hi; reflexivity).
  assert (Hfj : (f <$> l) !! j = Some (f x))
    by (rewrite list_lookup_fmap, Hj, Hf; reflexivity).
  pose proof (NoDup_lookup _ i j _ Hnd Hfi Hfj). subst j. congruence.
Qed.

Lemma shapeOf_Some (stackTraces : StackTraces) (key : stackCountKey)
    (seen : Z) (userBytes kernelBytes : list Byte.byte)
    (userStack : list Z) :
  stackTraces (UserStackID key) = LookupOk userBytes ->
  binary_Read userBytes stackDepth = Some userStack ->
  stackTraces (KernelStackID key) = LookupOk kernelBytes ->
  shapeOf stackTraces (key, seen) =
    Some ([int64_of_uint64 seen], nonzero userStack).
Proof.
  intros Hu Hd Hk. unfold shapeOf, readStacks. cbn [fst snd].
  rewrite Hu, Hd, Hk. reflexivity.
Qed.

Lemma fillProfile_skip (pre post : list (stackCountKey * Z))
    (entry : stackCountKey * Z) (itErr : bool) (stackTraces : StackTraces)
    (prof : Profile.t) (pid : Z) (mm : list MappingPtr)
    (store : MappingStore) :
  shapeOf stackTraces entry = None ->
  valueOf (fillProfile (pre ++ entry :: post) itErr stackTraces prof pid mm
             store) =
  valueOf (fillProfile (pre ++ post) itErr stackTraces prof pid mm store).
Proof.
  intros Hskip. unfold fillProfile. rewrite !valueOf_bind.
  rewrite (foldM_processKey_skip _ _ _ _ _ _ _ _ Hskip). reflexivity.
Qed.

Lemma validMappings_Scenario : validMappings Scenario.store Scenario.mm.
Proof.
  unfold validMappings, Scenario.mm.
  repeat (constructor; [eexists; vm_compute; reflexivity|]). constructor.
Qed.

(** *** Claims about [fillProfile] *)

(** C1: the code departs from the claim on a kernel stack whose lookup
    returns an error.  The user stack of the key is looked up and decoded,
    the lookup of the kernel stack fails, and [fillProfile] appends no
    Sample for the key, where the claim (and the comment of the code on the
    decode failure of the kernel stack) has the Sample with the user-space
    frames and the count appended. *)
Lemma fillProfile_kernel_lookup_error_drops_sample :
  let key := mkKey 15958 7 9 in
  Scenario.stackTraces (UserStackID key) =
    LookupOk (encodeStack (padStack [Scenario.fibNaive; Scenario.main]))
  /\ binary_Read (encodeStack (padStack [Scenario.fibNaive; Scenario.main]))
       stackDepth = Some (padStack [Scenario.fibNaive; Scenario.main])
  /\ Scenario.stackTraces (KernelStackID key) = LookupErr
  /\ exists (prof' : Profile.t) (store' : MappingStore),
       valueOf (fillProfile [(key, 3)] false Scenario.stackTraces
                  Scenario.prof 15958 Scenario.mm Scenario.store) =
         Some (prof', store')
       /\ Profile.Sample prof' = [].
Proof.
  cbn zeta. split; [reflexivity|]. split; [vm_compute; reflexivity|].
  split; [reflexivity|].
  eexists _, _. split; [vm_compute; reflexivity|reflexivity].
Qed.

(** For a key whose user stack is looked up and decoded, a kernel stack
    that is looked up but fails to decode does not abort the sample: one
    Sample with the count and the user-space frames is appended for the
    key, between those of the earlier and of the later keys. *)
Lemma fillProfile_kernel_decode_failure
    (pre post : list (stackCountKey * Z)) (key : stackCountKey) (seen : Z)
    (itErr : bool) (stackTraces : StackTraces) (prof : Profile.t) (pid : Z)
    (mm : list MappingPtr) (store : MappingStore)
    (userBytes kernelBytes : list Byte.byte) (userStack : list Z) :
  validMappings store mm ->
  stackTraces (UserStackID key) = LookupOk userBytes ->
  binary_Read userBytes stackDepth = Some userStack ->
  stackTraces (KernelStackID key) = LookupOk kernelBytes ->
  binary_Read kernelBytes stackDepth = None ->
  exists (prof' : Profile.t) (store' : MappingStore)
         (news : list Sample.t),
    valueOf (fillProfile (pre ++ (key, seen) :: post) itErr stackTraces
               prof pid mm store) = Some (prof', store')
    /\ Profile.Sample prof' = Profile.Sample prof ++ news
    /\ sampleShape <$> news =
         expectedShapes stackTraces pre
           ++ ([int64_of_uint64 seen], nonzero userStack)
           :: expectedShapes stackTraces post.
Proof.
  intros Hvalid Hu Hd Hk _.
  destruct (fillProfile_spec (pre ++ (key, seen) :: post) itErr
              stackTraces prof pid mm store Hvalid)
    as (prof' & store' & created & news & Hv & _ & Hs & _ & _ & Hsh & _).
  exists prof', store', news. split; [exact Hv|]. split; [exact Hs|].
  rewrite Hsh, expectedShapes_app, expectedShapes_cons.
  rewrite (shapeOf_Some _ _ _ _ _ _ Hu Hd Hk). reflexivity.
Qed.

Example fillProfile_kernel_decode_failure_run :
  let key := mkKey 15958 7 (-14) in
  exists (prof' : Profile.t) (store' : MappingStore) (news : list Sample.t),
    valueOf (fillProfile ([] ++ (key, 3) :: []) false Scenario.stackTraces
               Scenario.prof 15958 Scenario.mm Scenario.store) =
      Some (prof', store')
    /\ Profile.Sample prof' = Profile.Sample Scenario.prof ++ news
    /\ sampleShape <$> news =
         expectedShapes Scenario.stackTraces []
           ++ ([int64_of_uint64 3],
               nonzero (padStack [Scenario.fibNaive; Scenario.main]))
           :: expectedShapes Scenario.stackTraces [].
Proof.
  intros key.
  refine (fillProfile_kernel_decode_failure [] [] key 3 false
            Scenario.stackTraces Scenario.prof 15958 Scenario.mm
            Scenario.store
            (encodeStack (padStack [Scenario.fibNaive; Scenario.main])) []
            (padStack [Scenario.fibNaive; Scenario.main])
            validMappings_Scenario _ _ _ _).
  - reflexivity.
  - vm_compute. reflexivity.
  - reflexivity.
  - reflexivity.
Qed.

(** C2, as stated, fails on a stack with a nonzero entry behind a zero
    one: the entry is not excluded, the Sample gets a location for it. *)
Lemma fillProfile_keeps_entries_after_zero :
  let key := mkKey 15958 8 7 in
  Scenario.stackTraces (UserStackID key) =
    LookupOk (encodeStack Scenario.holedStack)
  /\ binary_Read (encodeStack Scenario.holedStack) stackDepth =
       Some Scenario.holedStack
  /\ length Scenario.holedStack = stackDepth
  /\ beforeFirstZero Scenario.holedStack = [Scenario.fibNaive]
  /\ exists (prof' : Profile.t) (store' : MappingStore),
       valueOf (fillProfile [(key, 1)] false Scenario.stackTraces
                  Scenario.prof 15958 Scenario.mm Scenario.store) =
         Some (prof', store')
       /\ sampleShape <$> Profile.Sample prof' =
            [([1], [Scenario.fibNaive; Scenario.main])].
Proof.
  cbn zeta. split; [reflexivity|]. split; [vm_compute; reflexivity|].
  split; [reflexivity|]. split; [reflexivity|].
  eexists _, _. split; [vm_compute; reflexivity|reflexivity].
Qed.

(** C2 (amended): the location list of the Sample of a key is built from
    exactly the nonzero addresses of its decoded user stack (127 entries),
    in order, and every zero entry is left out; when the stack is
    zero-padded (nothing but zeros from the first zero on) these are
    exactly the addresses in front of the first zero entry. *)
Theorem fillProfile_sample_locations
    (pre post : list (stackCountKey * Z)) (key : stackCountKey) (seen : Z)
    (itErr : bool) (stackTraces : StackTraces) (prof : Profile.t) (pid : Z)
    (mm : list MappingPtr) (store : MappingStore)
    (userBytes kernelBytes : list Byte.byte) (userStack : list Z) :
  validMappings store mm ->
  stackTraces (UserStackID key) = LookupOk userBytes ->
  binary_Read userBytes stackDepth = Some userStack ->
  stackTraces (KernelStackID key) = LookupOk kernelBytes ->
  exists (prof' : Profile.t) (store' : MappingStore) (news : list Sample.t)
         (s : Sample.t),
    valueOf (fillProfile (pre ++ (key, seen) :: post) itErr stackTraces
               prof pid mm store) = Some (prof', store')
    /\ Profile.Sample prof' = Profile.Sample prof ++ news
    /\ news !! length (expectedShapes stackTraces pre) = Some s
    /\ length userStack = stackDepth
    /\ Location.Address <$> Sample.Location s = nonzero userStack
    /\ (zeroPadded userStack = true ->
        Location.Address <$> Sample.Location s = beforeFirstZero userStack).
Proof.
  intros Hvalid Hu Hd Hk.
  destruct (fillProfile_spec (pre ++ (key, seen) :: post) itErr
              stackTraces prof pid mm store Hvalid)
    as (prof' & store' & created & news & Hv & _ & Hs & _ & _ & Hsh & _).
  rewrite expectedShapes_app, expectedShapes_cons in Hsh.
  rewrite (shapeOf_Some _ _ _ _ _ _ Hu Hd Hk) in Hsh. cbn [option_list app] in Hsh.
  destruct (fmap_lookup_middle _ _ _ _ _ Hsh) as (s & Hlook & Hshape).
  exists prof', store', news, s.
  split; [exact Hv|]. split; [exact Hs|]. split; [exact Hlook|].
  split; [exact (proj2 (binary_Read_Some _ _ _ Hd))|].
  injection Hshape as _ Haddr. split; [exact Haddr|].
  intros Hpad. rewrite Haddr. apply nonzero_zeroPadded. exact Hpad.
Qed.

Lemma fillProfile_sample_locations_witness :
  let key := mkKey 15958 7 (-14) in
  exists (prof' : Profile.t) (store' : MappingStore) (news : list Sample.t)
         (s : Sample.t),
    valueOf (fillProfile ([] ++ (key, 3) :: []) false Scenario.stackTraces
               Scenario.prof 15958 Scenario.mm Scenario.store) =
      Some (prof', store')
    /\ Profile.Sample prof' = Profile.Sample Scenario.prof ++ news
    /\ news !! length (expectedShapes Scenario.stackTraces []) = Some s
    /\ length (padStack [Scenario.fibNaive; Scenario.main]) = stackDepth
    /\ Location.Address <$> Sample.Location s =
         nonzero (padStack [Scenario.fibNaive; Scenario.main])
    /\ (zeroPadded (padStack [Scenario.fibNaive; Scenario.main]) = true ->
        Location.Address <$> Sample.Location s =
          beforeFirstZero (padStack [Scenario.fibNaive; Scenario.main])).
Proof.
  intros key.
  refine (fillProfile_sample_locations [] [] key 3 false
            Scenario.stackTraces Scenario.prof 15958 Scenario.mm
            Scenario.store
            (encodeStack (padStack [Scenario.fibNaive; Scenario.main])) []
            (padStack [Scenario.fibNaive; Scenario.main])
            validMappings_Scenario _ _ _).
  - reflexivity.
  - vm_compute. reflexivity.
  - reflexivity.
Defined.

(** C3: within one call, the locations the Samples refer to are entries
    created in this call; two occurrences of the same address, the pid
    being the one of the call, in the same or in different Samples, refer
    to the same Location, with the same id; and no two created Locations
    have the same address: a Location is created at most once per
    (pid, address). *)
Theorem fillProfile_dedup (counts : list (stackCountKey * Z)) (itErr : bool)
    (stackTraces : StackTraces) (prof : Profile.t) (pid : Z)
    (mm : list MappingPtr) (store : MappingStore) :
  validMappings store mm ->
  exists (prof' : Profile.t) (store' : MappingStore)
         (created : list Location.t) (news : list Sample.t),
    valueOf (fillProfile counts itErr stackTraces prof pid mm store) =
      Some (prof', store')
    /\ Profile.Location prof' = Profile.Location prof ++ created
    /\ Profile.Sample prof' = Profile.Sample prof ++ news
    /\ sampleShape <$> news = expectedShapes stackTraces counts
    /\ NoDup (Location.Address <$> created)
    /\ NoDup (Location.ID <$> created)
    /\ (forall (s1 s2 : Sample.t) (l1 l2 : Location.t),
          s1 ∈ news -> s2 ∈ news ->
          l1 ∈ Sample.Location s1 -> l2 ∈ Sample.Location s2 ->
          Location.Address l1 = Location.Address l2 ->
          l1 ∈ created /\ l1 = l2 /\ Location.ID l1 = Location.ID l2).
Proof.
  intros Hvalid.
  destruct (fillProfile_spec counts itErr stackTraces prof pid mm store
              Hvalid)
    as (prof' & store' & created & news & Hv & Hl & Hs & _ & _ & Hsh & Hin
        & Hids & Hnd).
  exists prof', store', created, news.
  split; [exact Hv|]. split; [exact Hl|]. split; [exact Hs|].
  split; [exact Hsh|]. split; [exact Hnd|]. split.
  - apply NoDup_alt. intros i j id Hi Hj.
    rewrite list_lookup_fmap in Hi, Hj.
    destruct (created !! i) as [li|] eqn:Hli; [|discriminate].
    destruct (created !! j) as [lj|] eqn:Hlj; [|discriminate].
    cbn in Hi, Hj. injection Hi as Hi. injection Hj as Hj.
    destruct (Hids i li Hli) as (Hidi & _).
    destruct (Hids j lj Hlj) as (Hidj & _). lia.
  - intros s1 s2 l1 l2 Hs1 Hs2 Hl1 Hl2 Haddr.
    pose proof (Hin s1 l1 Hs1 Hl1) as Hc1.
    pose proof (Hin s2 l2 Hs2 Hl2) as Hc2.
    pose proof (NoDup_fmap_eq _ _ _ _ Hnd Hc1 Hc2 Haddr) as Heq.
    split; [exact Hc1|]. split; [exact Heq|]. rewrite Heq. reflexivity.
Qed.

Lemma fillProfile_dedup_witness :
  exists (prof' : Profile.t) (store' : MappingStore)
         (created : list Location.t) (news : list Sample.t),
    valueOf (fillProfile [(mkKey 15958 7 (-14), 3); (mkKey 15958 8 7, 1)]
               false Scenario.stackTraces Scenario.prof 15958 Scenario.mm
               Scenario.store) = Some (prof', store')
    /\ Profile.Location prof' = Profile.Location Scenario.prof ++ created
    /\ Profile.Sample prof' = Profile.Sample Scenario.prof ++ news
    /\ sampleShape <$> news =
         expectedShapes Scenario.stackTraces
           [(mkKey 15958 7 (-14), 3); (mkKey 15958 8 7, 1)]
    /\ NoDup (Location.Address <$> created)
    /\ NoDup (Location.ID <$> created)
    /\ (forall (s1 s2 : Sample.t) (l1 l2 : Location.t),
          s1 ∈ news -> s2 ∈ news ->
          l1 ∈ Sample.Location s1 -> l2 ∈ Sample.Location s2 ->
          Location.Address l1 = Location.Address l2 ->
          l1 ∈ created /\ l1 = l2 /\ Location.ID l1 = Location.ID l2).
Proof.
  exact (fillProfile_dedup _ false Scenario.stackTraces Scenario.prof 15958
           Scenario.mm Scenario.store validMappings_Scenario).
Defined.

(** Two keys whose stacks share both frames: two Locations are created,
    and both Samples list the same two. *)
Example fillProfile_dedup_run :
  exists (prof' : Profile.t) (store' : MappingStore),
    valueOf (fillProfile [(mkKey 15958 7 (-14), 3); (mkKey 15958 8 7, 1)]
               false Scenario.stackTraces Scenario.prof 15958 Scenario.mm
               Scenario.store) = Some (prof', store')
    /\ Profile.Location prof' =
         [Location.mk 1 Scenario.fibNaive (Some 100%nat);
          Location.mk 2 Scenario.main (Some 100%nat)]
    /\ Sample.Location <$> Profile.Sample prof' =
         [Profile.Location prof'; Profile.Location prof'].
Proof.
  eexists _, _. split; [vm_compute; reflexivity|].
  split; reflexivity.
Qed.

(** C4: after the call the profile's Mapping list is the supplied list,
    in its order, and the mapping at position [i] has id [i + 1], the rest
    of it unchanged.  The pointers of the list are distinct mappings, as
    [profile.ParseProcMaps] allocates them. *)
Theorem fillProfile_mapping_ids (counts : list (stackCountKey * Z))
    (itErr : bool) (stackTraces : StackTraces) (prof : Profile.t) (pid : Z)
    (mm : list MappingPtr) (store : MappingStore) :
  validMappings store mm -> NoDup mm ->
  exists (prof' : Profile.t) (store' : MappingStore),
    valueOf (fillProfile counts itErr stackTraces prof pid mm store) =
      Some (prof', store')
    /\ Profile.Mapping prof' = mm
    /\ forall (i : nat) (p : MappingPtr),
         mm !! i = Some p ->
         exists m m' : Mapping.t,
           store !! p = Some m /\ store' !! p = Some m'
           /\ Mapping.ID m' = Z.of_nat i + 1
           /\ m' = Mapping.setID m (Z.of_nat i + 1).
Proof.
  intros Hvalid Hnd.
  destruct (fillProfile_spec counts itErr stackTraces prof pid mm store
              Hvalid)
    as (prof' & store' & created & news & Hv & _ & _ & Hm & Hids & _).
  exists prof', store'. split; [exact Hv|]. split; [exact Hm|].
  intros i p Hi.
  destruct (assignIDs_spec mm 0%nat store Hvalid)
    as (store'' & Hv' & _ & Hlast & _).
  assert (store'' = store') as -> by congruence.
  unfold validMappings in Hvalid. rewrite Forall_lookup in Hvalid.
  destruct (Hvalid i p Hi) as [m Hp].
  pose proof (Hlast i p m Hi (NoDup_lookup_not_later _ _ _ Hnd Hi) Hp) as Hp'.
  replace (Z.of_nat (0 + i + 1)) with (Z.of_nat i + 1) in Hp' by lia.
  exists m, (Mapping.setID m (Z.of_nat i + 1)).
  split; [exact Hp|]. split; [exact Hp'|]. split; reflexivity.
Qed.

Lemma fillProfile_mapping_ids_witness :
  exists (prof' : Profile.t) (store' : MappingStore),
    valueOf (fillProfile [(mkKey 15958 7 (-14), 3)] false
               Scenario.stackTraces Scenario.prof 15958 Scenario.mm
               Scenario.store) = Some (prof', store')
    /\ Profile.Mapping prof' = Scenario.mm
    /\ forall (i : nat) (p : MappingPtr),
         Scenario.mm !! i = Some p ->
         exists m m' : Mapping.t,
           Scenario.store !! p = Some m /\ store' !! p = Some m'
           /\ Mapping.ID m' = Z.of_nat i + 1
           /\ m' = Mapping.setID m (Z.of_nat i + 1).
Proof.
  apply (fillProfile_mapping_ids _ false Scenario.stackTraces Scenario.prof
           15958 Scenario.mm Scenario.store validMappings_Scenario).
  unfold Scenario.mm. apply NoDup_cons. split.
  - intros Hin. apply list_elem_of_singleton in Hin. discriminate.
  - apply NoDup_singleton.
Defined.

(** A key whose user stack id has no readable stack in the table, because
    the lookup fails or because it yields fewer than [8 * 127] bytes (none
    at all for an id the table does not hold), gets no Sample, and the keys
    after it are processed as if it were not there: the call succeeds, the
    Samples are those of the other keys, and profile and mappings are the
    ones built without the key. *)
Lemma fillProfile_user_stack_unreadable
    (pre post : list (stackCountKey * Z)) (key : stackCountKey) (seen : Z)
    (itErr : bool) (stackTraces : StackTraces) (prof : Profile.t) (pid : Z)
    (mm : list MappingPtr) (store : MappingStore) :
  validMappings store mm ->
  (stackTraces (UserStackID key) = LookupErr
   \/ exists stackBytes : list Byte.byte,
        stackTraces (UserStackID key) = LookupOk stackBytes
        /\ (length stackBytes < 8 * stackDepth)%nat) ->
  exists (prof' : Profile.t) (store' : MappingStore) (news : list Sample.t),
    valueOf (fillProfile (pre ++ (key, seen) :: post) itErr stackTraces
               prof pid mm store) = Some (prof', store')
    /\ valueOf (fillProfile (pre ++ post) itErr stackTraces prof pid mm
                  store) = Some (prof', store')
    /\ Profile.Sample prof' = Profile.Sample prof ++ news
    /\ sampleShape <$> news =
         expectedShapes stackTraces pre ++ expectedShapes stackTraces post.
Proof.
  intros Hvalid Hunreadable.
  assert (Hskip : shapeOf stackTraces (key, seen) = None).
  { unfold shapeOf, readStacks. cbn [fst snd].
    destruct Hunreadable as [Herr|(stackBytes & Hok & Hshort)].
    - rewrite Herr. reflexivity.
    - rewrite Hok, (binary_Read_short _ _ Hshort). reflexivity. }
  destruct (fillProfile_spec (pre ++ post) itErr stackTraces prof pid mm
              store Hvalid)
    as (prof' & store' & created & news & Hv & _ & Hs & _ & _ & Hsh & _).
  exists prof', store', news.
  split; [rewrite (fillProfile_skip _ _ _ _ _ _ _ _ _ Hskip); exact Hv|].
  split; [exact Hv|]. split; [exact Hs|].
  rewrite Hsh. apply expectedShapes_app.
Qed.

Lemma isStackTraceMap_Scenario : isStackTraceMap Scenario.stackTraces.
Proof.
  intros id Hid. right. unfold MAX_STACK_ADDRESSES in Hid.
  unfold Scenario.stackTraces.
  destruct (Z.eqb_spec id 7) as [->|_]; [lia|].
  destruct (Z.eqb_spec id 8) as [->|_]; [lia|].
  destruct (Z.eqb_spec id 9) as [->|_]; [lia|]. reflexivity.
Qed.

(** C5: the table being the one read from the [stack_traces] map, a key
    whose user stack id is negative gets no Sample and processing goes on
    with the later keys: the loop body logs one failure for the key (of the
    lookup or of the read, no stack being printed or turned into
    locations) and leaves locations and samples as they were; the call
    succeeds, the Samples are those of the other keys, and profile and
    mappings are the ones built without the key. *)
Theorem fillProfile_negative_user_stack_id
    (pre post : list (stackCountKey * Z)) (key : stackCountKey) (seen : Z)
    (itErr : bool) (stackTraces : StackTraces) (prof : Profile.t) (pid : Z)
    (mm : list MappingPtr) (store : MappingStore) :
  isStackTraceMap stackTraces ->
  validMappings store mm ->
  UserStackID key < 0 ->
  (forall st : State,
      processKey store stackTraces pid mm st (key, seen) =
        Some (st, [PrintSeen key seen; LogUserLookupFailed])
      \/ processKey store stackTraces pid mm st (key, seen) =
           Some (st, [PrintSeen key seen; LogUserReadFailed]))
  /\ exists (prof' : Profile.t) (store' : MappingStore)
            (news : list Sample.t),
       valueOf (fillProfile (pre ++ (key, seen) :: post) itErr stackTraces
                  prof pid mm store) = Some (prof', store')
       /\ valueOf (fillProfile (pre ++ post) itErr stackTraces prof pid mm
                     store) = Some (prof', store')
       /\ Profile.Sample prof' = Profile.Sample prof ++ news
       /\ sampleShape <$> news =
            expectedShapes stackTraces pre
              ++ expectedShapes stackTraces post.
Proof.
  intros Htable Hvalid Hneg.
  destruct (Htable (UserStackID key) (or_introl Hneg)) as [Hlookup|Hlookup].
  - split.
    + intros st. left. unfold processKey. rewrite Hlookup. reflexivity.
    + apply fillProfile_user_stack_unreadable; [exact Hvalid|].
      left. exact Hlookup.
  - split.
    + intros st. right. unfold processKey. rewrite Hlookup. reflexivity.
    + apply fillProfile_user_stack_unreadable; [exact Hvalid|].
      right. exists []. split; [exact Hlookup|]. cbn. lia.
Qed.

Lemma fillProfile_negative_user_stack_id_witness :
  let key := mkKey 15958 (-14) 7 in
  let before := (mkKey 15958 7 (-14), 3) in
  let after := (mkKey 15958 8 7, 1) in
  (forall st : State,
      processKey Scenario.store Scenario.stackTraces 15958 Scenario.mm st
        (key, 2) = Some (st, [PrintSeen key 2; LogUserLookupFailed])
      \/ processKey Scenario.store Scenario.stackTraces 15958 Scenario.mm st
           (key, 2) = Some (st, [PrintSeen key 2; LogUserReadFailed]))
  /\ exists (prof' : Profile.t) (store' : MappingStore)
            (news : list Sample.t),
       valueOf (fillProfile ([before] ++ (key, 2) :: [after]) false
                  Scenario.stackTraces Scenario.prof 15958 Scenario.mm
                  Scenario.store) = Some (prof', store')
       /\ valueOf (fillProfile ([before] ++ [after]) false
                     Scenario.stackTraces Scenario.prof 15958 Scenario.mm
                     Scenario.store) = Some (prof', store')
       /\ Profile.Sample prof' = Profile.Sample Scenario.prof ++ news
       /\ sampleShape <$> news =
            expectedShapes Scenario.stackTraces [before]
              ++ expectedShapes Scenario.stackTraces [after].
Proof.
  intros key before after.
  apply (fillProfile_negative_user_stack_id [before] [after] key 2 false
           Scenario.stackTraces Scenario.prof 15958 Scenario.mm
           Scenario.store isStackTraceMap_Scenario validMappings_Scenario).
  cbn. lia.
Defined.

(** C10: [mappingForAddr] yields the first mapping of the list, in list
    order, with [Start <= addr] and [addr <= Limit], the limit included,
    and [nil] when there is none.  Every Location created by the call
    carries this result for its address; the locations of the Samples are
    among the created ones, one for every nonzero address of the stack,
    so an address that no mapping contains has a Location, with a [nil]
    mapping, in the list of its Sample. *)
Theorem fillProfile_location_mapping (counts : list (stackCountKey * Z))
    (itErr : bool) (stackTraces : StackTraces) (prof : Profile.t) (pid : Z)
    (mm : list MappingPtr) (store : MappingStore) :
  validMappings store mm ->
  (forall addr : Z,
      exists r : option MappingPtr,
        valueOf (mappingForAddr store mm addr) = Some r
        /\ match r with
           | Some p =>
               exists (i : nat) (m : Mapping.t),
                 mm !! i = Some p /\ store !! p = Some m
                 /\ Mapping.Start m <= addr /\ addr <= Mapping.Limit m
                 /\ missesAll store addr (take i mm)
           | None => missesAll store addr mm
           end)
  /\ exists (prof' : Profile.t) (store' : MappingStore)
            (created : list Location.t) (news : list Sample.t),
       valueOf (fillProfile counts itErr stackTraces prof pid mm store) =
         Some (prof', store')
       /\ Profile.Location prof' = Profile.Location prof ++ created
       /\ Profile.Sample prof' = Profile.Sample prof ++ news
       /\ (forall l : Location.t,
             l ∈ created ->
             valueOf (mappingForAddr store mm (Location.Address l)) =
               Some (Location.Mapping l))
       /\ sampleShape <$> news = expectedShapes stackTraces counts
       /\ (forall (s : Sample.t) (l : Location.t),
             s ∈ news -> l ∈ Sample.Location s ->
             l ∈ created
             /\ (missesAll store (Location.Address l) mm ->
                 Location.Mapping l = None)).
Proof.
  intros Hvalid. split.
  - intros addr.
    destruct (mappingForAddr_spec store mm addr Hvalid) as (r & Hr & Hfirst).
    exists r. split; [rewrite Hr; reflexivity|].
    destruct r as [p|]; [|exact Hfirst].
    destruct Hfirst as (i & m & Hi & Hp & [Hs Hl] & Hbefore).
    exists i, m. repeat (split; [assumption|]). exact Hbefore.
  - destruct (fillProfile_spec counts itErr stackTraces prof pid mm store
                Hvalid)
      as (prof' & store' & created & news & Hv & Hl & Hs & _ & _ & Hsh & Hin
          & Hids & _).
    exists prof', store', created, news.
    split; [exact Hv|]. split; [exact Hl|]. split; [exact Hs|].
    assert (Hmap : forall l : Location.t, l ∈ created ->
              firstContaining store mm (Location.Address l)
                (Location.Mapping l)).
    { intros l Hlc. apply list_elem_of_lookup in Hlc as (j & Hj).
      exact (proj2 (proj2 (Hids j l Hj))). }
    split; [|split; [exact Hsh|]].
    + intros l Hlc.
      destruct (mappingForAddr_spec store mm (Location.Address l) Hvalid)
        as (r & Hr & Hfirst).
      rewrite Hr. cbn. f_equal.
      pose proof (Hmap l Hlc) as Hfirst'.
      destruct r as [p|], (Location.Mapping l) as [q|];
        cbn [firstContaining] in Hfirst, Hfirst'; try reflexivity.
      * destruct Hfirst as (i & m & Hi & Hp & Hc & Hbi).
        destruct Hfirst' as (j & mq & Hj & Hq & Hcq & Hbj).
        unfold missesAll in Hbi, Hbj.
        destruct (lt_eq_lt_dec i j) as [[Hlt|Heq]|Hgt].
        -- exfalso.
           exact (Forall_take_lookup _ _ _ Hbj i p Hlt Hi m Hp Hc).
        -- subst j. congruence.
        -- exfalso.
           exact (Forall_take_lookup _ _ _ Hbi j q Hgt Hj mq Hq Hcq).
      * exfalso. destruct Hfirst as (i & m & Hi & Hp & Hc & _).
        unfold missesAll in Hfirst'. rewrite Forall_lookup in Hfirst'.
        exact (Hfirst' i p Hi m Hp Hc).
      * exfalso. destruct Hfirst' as (j & mq & Hj & Hq & Hcq & _).
        unfold missesAll in Hfirst. rewrite Forall_lookup in Hfirst.
        exact (Hfirst j q Hj mq Hq Hcq).
    + intros s l Hsn Hls. pose proof (Hin s l Hsn Hls) as Hlc.
      split; [exact Hlc|]. intros Hmiss.
      pose proof (Hmap l Hlc) as Hfirst.
      destruct (Location.Mapping l) as [q|]; [|reflexivity].
      exfalso. destruct Hfirst as (j & mq & Hj & Hq & Hcq & _).
      unfold missesAll in Hmiss. rewrite Forall_lookup in Hmiss.
      exact (Hmiss j q Hj mq Hq Hcq).
Qed.

Lemma fillProfile_location_mapping_witness :
  exists (prof' : Profile.t) (store' : MappingStore)
         (created : list Location.t) (news : list Sample.t),
    valueOf (fillProfile [(mkKey 15958 5 (-14), 1)] false
               Scenario.edgeTraces Scenario.prof 15958 Scenario.mm
               Scenario.store) = Some (prof', store')
    /\ Profile.Location prof' = Profile.Location Scenario.prof ++ created
    /\ Profile.Sample prof' = Profile.Sample Scenario.prof ++ news
    /\ (forall l : Location.t,
          l ∈ created ->
          valueOf (mappingForAddr Scenario.store Scenario.mm
                     (Location.Address l)) = Some (Location.Mapping l))
    /\ sampleShape <$> news =
         expectedShapes Scenario.edgeTraces [(mkKey 15958 5 (-14), 1)]
    /\ (forall (s : Sample.t) (l : Location.t),
          s ∈ news -> l ∈ Sample.Location s ->
          l ∈ created
          /\ (missesAll Scenario.store (Location.Address l) Scenario.mm ->
              Location.Mapping l = None)).
Proof.
  exact (proj2 (fillProfile_location_mapping _ false Scenario.edgeTraces
                  Scenario.prof 15958 Scenario.mm Scenario.store
                  validMappings_Scenario)).
Defined.

(** The address at the limit of [text] is attributed to [text]; the
    address outside every mapping gets a Location without mapping, listed
    in the Sample. *)
Example fillProfile_location_mapping_run :
  exists (prof' : Profile.t) (store' : MappingStore),
    valueOf (fillProfile [(mkKey 15958 5 (-14), 1)] false
               Scenario.edgeTraces Scenario.prof 15958 Scenario.mm
               Scenario.store) = Some (prof', store')
    /\ Profile.Location prof' =
         [Location.mk 1 Scenario.atLimit (Some 100%nat);
          Location.mk 2 Scenario.unmapped None]
    /\ Profile.Sample prof' = [Sample.mk [1] (Profile.Location prof')]
    /\ Mapping.ID <$> store' !! 100%nat = Some 1
    /\ Mapping.ID <$> store' !! 101%nat = Some 2.
Proof.
  eexists _, _. split; [vm_compute; reflexivity|].
  repeat split.
Qed.

(** * Further properties of the code *)

(** ** The symbolizer *)

(** The loop of [sort.Search] without any assumption on the predicate: it
    stops in [[i, j]], just behind an index where the predicate fails, and
    on an index where it holds. *)
Lemma Search_loop_stop (f : nat -> bool) (d i j : nat) :
  (j - i <= d)%nat -> (i <= j)%nat ->
  (i <= Search_loop f i j <= j)%nat
  /\ (Search_loop f i j = i \/ f (Search_loop f i j - 1)%nat = false)
  /\ (Search_loop f i j = j \/ f (Search_loop f i j) = true).
Proof.
  revert i j. induction d as [|d IH]; intros i j Hd Hij.
  - rewrite Search_loop_unfold. destruct (decide (i < j)%nat); [lia|].
    split; [lia|]. split; [left; reflexivity|left; lia].
  - rewrite Search_loop_unfold. destruct (decide (i < j)%nat) as [Hlt|Hge].
    + pose proof (div2_between i j Hlt) as Hh.
      destruct (f (Nat.div2 (i + j))) eqn:Hf.
      * destruct (IH i (Nat.div2 (i + j)) ltac:(lia) ltac:(lia))
          as (Hr & Hlo & Hhi).
        split; [lia|]. split; [exact Hlo|]. right.
        destruct Hhi as [-> | Hhi]; [exact Hf|exact Hhi].
      * destruct (IH (Nat.div2 (i + j) + 1)%nat j ltac:(lia) ltac:(lia))
          as (Hr & Hlo & Hhi).
        split; [lia|]. split; [|exact Hhi]. right.
        destruct Hlo as [-> | Hlo]; [|exact Hlo].
        replace (Nat.div2 (i + j) + 1 - 1)%nat with (Nat.div2 (i + j)) by lia.
        exact Hf.
    + split; [lia|]. split; [left; reflexivity|left; lia].
Qed.

(** Every symbolizer [newSymbolizer] builds holds the symbols of the file
    sorted by value: ascending, the same symbols, and those of equal value
    in the order of the file. *)
Theorem newSymbolizer_table (f : File) (fileOffset memStart : Z)
    (s : symbolizer) (syms : list Symbol) :
  newSymbolizer f fileOffset memStart = Ok s ->
  Symbols f = inr syms ->
  sortedByValue (symbols s) = true
  /\ Permutation (symbols s) syms
  /\ forall v : Z,
       filter (fun sym => Value sym = v) (symbols s) =
       filter (fun sym => Value sym = v) syms.
Proof.
  intros Hnew Hsyms. unfold newSymbolizer in Hnew. rewrite Hsyms in Hnew.
  destruct (negb (PType (findSegment (Progs f) fileOffset zeroProgHeader)
                  =? PT_LOAD)); [discriminate|].
  injection Hnew as <-. cbn [symbols].
  split; [apply SliceStable_sorted|].
  split; [apply SliceStable_Permutation|].
  intros v. apply SliceStable_stable.
Qed.

Lemma newSymbolizer_table_witness :
  let f := {| Symbols := inr [mkSymbol "main" 0x40115a 0;
                              mkSymbol "data_start" 0x404000 0;
                              mkSymbol "fibNaive" 0x401126 0;
                              mkSymbol "__data_start" 0x404000 0];
              Progs := [mkProgHeader PT_LOAD 0x1000 0x401000] |} in
  exists s : symbolizer,
    newSymbolizer f 0x1000 0x401000 = Ok s
    /\ symbols s = [mkSymbol "fibNaive" 0x401126 0;
                    mkSymbol "main" 0x40115a 0;
                    mkSymbol "data_start" 0x404000 0;
                    mkSymbol "__data_start" 0x404000 0]
    /\ sortedByValue (symbols s) = true
    /\ Permutation (symbols s)
         [mkSymbol "main" 0x40115a 0; mkSymbol "data_start" 0x404000 0;
          mkSymbol "fibNaive" 0x401126 0; mkSymbol "__data_start" 0x404000 0].
Proof.
  intros f. eexists. split; [reflexivity|]. split; [reflexivity|].
  match goal with
  | |- sortedByValue (symbols ?s) = true /\ _ =>
      pose proof (newSymbolizer_table f 0x1000 0x401000 s _ eq_refl eq_refl)
        as (Hsorted & Hperm & _)
  end.
  split; [exact Hsorted|exact Hperm].
Defined.

(** [Addr2FuncName] never makes a name up and never names a function that
    starts above the address: on any table, sorted or not, the result is
    the sentinel or the name of a symbol of the table whose value is the
    searched address, or is positive and below it. *)
Theorem Addr2FuncName_names_symbol_below (s : symbolizer) (addr : Z) :
  Addr2FuncName s addr = notfound
  \/ exists (t : Z) (k : nat) (sym : Symbol),
       adjustAddr s addr = Some t
       /\ symbols s !! k = Some sym
       /\ Addr2FuncName s addr = Name sym
       /\ (Value sym = t \/ 0 < Value sym < t).
Proof.
  unfold Addr2FuncName.
  destruct (adjustAddr s addr) as [t|]; [|left; reflexivity].
  unfold searchSymbols.
  set (l := symbols s). set (i := Search (length l) (valueAtLeast l t)).
  destruct (Search_loop_stop (valueAtLeast l t) (length l) 0 (length l)
              ltac:(lia) ltac:(lia)) as (Hr & Hlo & _).
  fold (Search (length l) (valueAtLeast l t)) in Hr, Hlo. fold i in Hr, Hlo.
  destruct (Nat.leb_spec (length l) i) as [Hge|Hlt]; [left; reflexivity|].
  destruct (lookup_lt_is_Some_2 l i Hlt) as [hit Hhit].
  rewrite (list_lookup_total_correct _ _ _ Hhit).
  destruct (Z.eqb_spec (Value hit) t) as [Heq|Hne].
  - right. exists t, i, hit. repeat split; try assumption. left. exact Heq.
  - destruct (Nat.leb_spec 1 i) as [Hpos|Hzero]; cbn [andb];
      [|left; reflexivity].
    destruct (lookup_lt_is_Some_2 l (i - 1)%nat ltac:(lia)) as [prev Hprev].
    rewrite (list_lookup_total_correct _ _ _ Hprev).
    destruct (Z.gtb_spec (Value prev) 0) as [Hgt|Hle]; [|left; reflexivity].
    right. exists t, (i - 1)%nat, prev. repeat split; try assumption.
    right. destruct Hlo as [Hi0|Hf]; [lia|].
    unfold valueAtLeast in Hf.
    rewrite (list_lookup_total_correct _ _ _ Hprev) in Hf.
    destruct (Z.geb_spec (Value prev) t); [discriminate|lia].
Qed.

(** An address below every symbol of the table, in particular any address
    on an empty table, resolves to the sentinel. *)
Theorem Addr2FuncName_below_all (s : symbolizer) (addr t : Z) :
  adjustAddr s addr = Some t ->
  (forall sym : Symbol, sym ∈ symbols s -> t < Value sym) ->
  Addr2FuncName s addr = notfound.
Proof.
  intros Hadj Hall. unfold Addr2FuncName. rewrite Hadj. unfold searchSymbols.
  set (l := symbols s) in *.
  assert (Htrue : forall k : nat, (k < length l)%nat ->
            valueAtLeast l t k = true).
  { intros k Hk. unfold valueAtLeast.
    destruct (lookup_lt_is_Some_2 l k Hk) as [sk Hsk].
    rewrite (list_lookup_total_correct _ _ _ Hsk).
    pose proof (Hall sk (list_elem_of_lookup_2 _ _ _ Hsk)).
    apply Z.geb_le. lia. }
  destruct (Search_loop_stop (valueAtLeast l t) (length l) 0 (length l)
              ltac:(lia) ltac:(lia)) as (Hr & Hlo & _).
  fold (Search (length l) (valueAtLeast l t)) in Hr, Hlo.
  set (i := Search (length l) (valueAtLeast l t)) in *.
  assert (Hi : i = 0%nat).
  { destruct Hlo as [Hi|Hf]; [exact Hi|].
    destruct (decide (i = 0%nat)) as [Hz|Hnz]; [exact Hz|].
    rewrite Htrue in Hf by lia. discriminate. }
  rewrite Hi.
  destruct (Nat.leb_spec (length l) 0) as [_|Hlen]; [reflexivity|].
  destruct (lookup_lt_is_Some_2 l 0 Hlen) as [first Hfirst].
  rewrite (list_lookup_total_correct _ _ _ Hfirst).
  pose proof (Hall first (list_elem_of_lookup_2 _ _ _ Hfirst)).
  destruct (Z.eqb_spec (Value first) t); [lia|]. reflexivity.
Qed.

Lemma Addr2FuncName_below_all_witness :
  let s := {| symbols := [mkSymbol "frame_dummy" 0x401120 0;
                          mkSymbol "fibNaive" 0x401126 0];
              segmentOffset := 0x1000;
              memoryStart := 0x401000;
              isPIE := false |} in
  Addr2FuncName s 123 = notfound.
Proof.
  intros s. apply (Addr2FuncName_below_all s 123 123); [reflexivity|].
  intros sym Hsym. cbn in Hsym.
  repeat (apply elem_of_cons in Hsym as [->|Hsym]; [cbn; lia|]).
  inversion Hsym.
Defined.

(** On a PIE binary the result does not depend on where the segment was
    loaded: moving [memoryStart] and the sampled address by the same
    amount gives the same name. *)
Theorem Addr2FuncName_load_base (s : symbolizer) (addr delta : Z) :
  isPIE s = true ->
  memoryStart s <= addr -> addr <> 0 -> addr + delta <> 0 ->
  Addr2FuncName
    {| symbols := symbols s;
       segmentOffset := segmentOffset s;
       memoryStart := memoryStart s + delta;
       isPIE := true |} (addr + delta) =
  Addr2FuncName s addr.
Proof.
  intros Hpie Hge Hnz Hnz'. unfold Addr2FuncName.
  rewrite (adjustAddr_PIE s addr Hpie Hnz Hge).
  rewrite adjustAddr_PIE; cbn [isPIE memoryStart segmentOffset symbols];
    [|reflexivity|exact Hnz'|lia].
  replace (addr + delta - (memoryStart s + delta)) with (addr - memoryStart s)
    by lia.
  reflexivity.
Qed.

Lemma Addr2FuncName_load_base_witness :
  let s := {| symbols := [mkSymbol "main" 0x1000 0; mkSymbol "fib" 0x1010 0];
              segmentOffset := 0x1000;
              memoryStart := 0x401000;
              isPIE := true |} in
  Addr2FuncName
    {| symbols := symbols s;
       segmentOffset := segmentOffset s;
       memoryStart := memoryStart s + (94862440955904 - 0x401000);
       isPIE := true |} (0x401010 + (94862440955904 - 0x401000)) =
  Addr2FuncName s 0x401010.
Proof.
  intros s.
  apply (Addr2FuncName_load_base s 0x401010 (94862440955904 - 0x401000));
    [reflexivity|cbn; lia|lia|lia].
Defined.

(** ** Profile assembly *)

(** [tracedAddresses], which prepares a stack for printing, cuts the stack
    at its first zero entry; for a stack without a zero entry, one that
    uses all its slots, it returns nil and nothing of the stack is
    printed.  On a zero-padded stack with a zero entry the printed
    addresses are those the Sample gets. *)
Theorem tracedAddresses_cut (stack : list Z) :
  (0 ∈ stack -> tracedAddresses stack = beforeFirstZero stack)
  /\ (0 ∉ stack -> tracedAddresses stack = [])
  /\ (0 ∈ stack -> zeroPadded stack = true ->
      tracedAddresses stack = nonzero stack).
Proof.
  rewrite tracedAddresses_spec. split; [|split].
  - intros Hin. rewrite bool_decide_eq_true_2 by exact Hin. reflexivity.
  - intros Hout. rewrite bool_decide_eq_false_2 by exact Hout. reflexivity.
  - intros Hin Hpad. rewrite bool_decide_eq_true_2 by exact Hin.
    symmetry. apply nonzero_zeroPadded. exact Hpad.
Qed.

Lemma tracedAddresses_cut_witness :
  tracedAddresses (padStack [Scenario.fibNaive; Scenario.main]) =
    [Scenario.fibNaive; Scenario.main]
  /\ tracedAddresses (replicate stackDepth Scenario.main) = []
  /\ tracedAddresses Scenario.holedStack = [Scenario.fibNaive].
Proof.
  split; [|split].
  - rewrite (proj2 (proj2 (tracedAddresses_cut _))).
    + reflexivity.
    + unfold padStack. apply elem_of_app. right. cbn. left.
    + reflexivity.
  - apply (proj1 (proj2 (tracedAddresses_cut _))).
    intros Hin. apply elem_of_replicate in Hin as [Hz _]. discriminate.
  - rewrite (proj1 (tracedAddresses_cut _)); [reflexivity|].
    unfold Scenario.holedStack. right. left.
Defined.

Lemma assignIDs_nil_pointer (mm : list MappingPtr) :
  forall (i : nat) (store : MappingStore),
    ~ validMappings store mm -> valueOf (assignIDs mm i store) = None.
Proof.
  induction mm as [|p rest IH]; intros i store Hinvalid.
  - exfalso. apply Hinvalid. constructor.
  - cbn [assignIDs]. destruct (store !! p) as [m|] eqn:Hp; [|reflexivity].
    apply IH. intros Hvalid. apply Hinvalid. constructor.
    + exists m. exact Hp.
    + unfold validMappings in *. eapply Forall_impl; [exact Hvalid|].
      intros q [mq Hq]. cbn beta in Hq.
      destruct (decide (p = q)) as [->|Hne].
      * exists m. exact Hp.
      * rewrite lookup_insert_ne in Hq by exact Hne. exists mq. exact Hq.
Qed.

(** [fillProfile] returns exactly when no pointer of the mapping list is
    nil; with a nil pointer in the list it panics, whatever the samples
    are, even for an empty counts map, since every mapping gets its id
    written. *)
Theorem fillProfile_returns_iff_no_nil (counts : list (stackCountKey * Z))
    (itErr : bool) (stackTraces : StackTraces) (prof : Profile.t) (pid : Z)
    (mm : list MappingPtr) (store : MappingStore) :
  (validMappings store mm ->
   exists r : Profile.t * MappingStore,
     valueOf (fillProfile counts itErr stackTraces prof pid mm store) =
       Some r)
  /\ (~ validMappings store mm ->
      valueOf (fillProfile counts itErr stackTraces prof pid mm store) =
        None).
Proof.
  split.
  - intros Hvalid.
    destruct (fillProfile_spec counts itErr stackTraces prof pid mm store
                Hvalid) as (prof' & store' & _ & _ & Hv & _).
    exists (prof', store'). exact Hv.
  - intros Hinvalid. unfold fillProfile. rewrite valueOf_bind.
    destruct (valueOf (foldM (processKey store stackTraces pid mm) counts _))
      as [st|]; [|reflexivity].
    cbn [mbind option_bind]. rewrite valueOf_bind.
    destruct (valueOf (if itErr then emit LogCountsFailed else ret tt));
      [|reflexivity].
    cbn [mbind option_bind]. rewrite valueOf_bind.
    rewrite (assignIDs_nil_pointer mm 0%nat store Hinvalid). reflexivity.
Qed.

Lemma fillProfile_returns_iff_no_nil_witness :
  (exists r : Profile.t * MappingStore,
      valueOf (fillProfile [] false Scenario.stackTraces Scenario.prof 15958
                 Scenario.mm Scenario.store) = Some r)
  /\ valueOf (fillProfile [] false Scenario.stackTraces Scenario.prof 15958
                [100%nat; 7%nat] Scenario.store) = None.
Proof.
  split.
  - exact (proj1 (fillProfile_returns_iff_no_nil [] false
                    Scenario.stackTraces Scenario.prof 15958 Scenario.mm
                    Scenario.store) validMappings_Scenario).
  - apply (proj2 (fillProfile_returns_iff_no_nil [] false
                    Scenario.stackTraces Scenario.prof 15958
                    [100%nat; 7%nat] Scenario.store)).
    intros Hvalid. unfold validMappings in Hvalid.
    rewrite Forall_lookup in Hvalid.
    destruct (Hvalid 1%nat 7%nat eq_refl) as [m Hm].
    vm_compute in Hm. discriminate.
Defined.

Lemma expectedShapes_length (stackTraces : StackTraces)
    (counts : list (stackCountKey * Z)) :
  (length (expectedShapes stackTraces counts) <= length counts)%nat.
Proof.
  induction counts as [|e counts IH]; [reflexivity|].
  rewrite expectedShapes_cons, length_app. cbn [length].
  destruct (shapeOf stackTraces e); simpl; lia.
Qed.

(** [fillProfile] only adds to the profile it is given: the sample type,
    the times, the period type and the period stay as they are, the
    Samples and Locations already there stay in front, in their order, at
    most one Sample is appended per key of the counts map, and the Mapping
    list is replaced by the given one. *)
Theorem fillProfile_only_appends (counts : list (stackCountKey * Z))
    (itErr : bool) (stackTraces : StackTraces) (prof : Profile.t) (pid : Z)
    (mm : list MappingPtr) (store : MappingStore) :
  validMappings store mm ->
  exists (prof' : Profile.t) (store' : MappingStore)
         (created : list Location.t) (news : list Sample.t),
    valueOf (fillProfile counts itErr stackTraces prof pid mm store) =
      Some (prof', store')
    /\ Profile.SampleType prof' = Profile.SampleType prof
    /\ Profile.TimeNanos prof' = Profile.TimeNanos prof
    /\ Profile.DurationNanos prof' = Profile.DurationNanos prof
    /\ Profile.PeriodType prof' = Profile.PeriodType prof
    /\ Profile.Period prof' = Profile.Period prof
    /\ Profile.Location prof' = Profile.Location prof ++ created
    /\ Profile.Sample prof' = Profile.Sample prof ++ news
    /\ (length news <= length counts)%nat
    /\ Profile.Mapping prof' = mm.
Proof.
  intros Hvalid.
  destruct (fillProfile_spec counts itErr stackTraces prof pid mm store
              Hvalid)
    as (prof' & store' & created & news & Hv & Hl & Hs & Hm & _ & Hsh & _).
  exists prof', store', created, news. split; [exact Hv|].
  assert (Hmeta : Profile.SampleType prof' = Profile.SampleType prof
                  /\ Profile.TimeNanos prof' = Profile.TimeNanos prof
                  /\ Profile.DurationNanos prof' = Profile.DurationNanos prof
                  /\ Profile.PeriodType prof' = Profile.PeriodType prof
                  /\ Profile.Period prof' = Profile.Period prof).
  { unfold fillProfile in Hv. rewrite valueOf_bind in Hv.
    destruct (valueOf (foldM (processKey store stackTraces pid mm) counts _))
      as [st|]; [|discriminate].
    cbn [mbind option_bind] in Hv. rewrite valueOf_bind in Hv.
    destruct (valueOf (if itErr then emit LogCountsFailed else ret tt));
      [|discriminate].
    cbn [mbind option_bind] in Hv. rewrite valueOf_bind in Hv.
    destruct (valueOf (assignIDs mm 0%nat store)); [|discriminate].
    cbn in Hv. injection Hv as <- _. repeat split. }
  destruct Hmeta as (H1 & H2 & H3 & H4 & H5).
  repeat (split; [assumption|]). split; [|exact Hm].
  rewrite <- (length_fmap sampleShape), Hsh. apply expectedShapes_length.
Qed.

Lemma fillProfile_only_appends_witness :
  exists (prof' : Profile.t) (store' : MappingStore)
         (created : list Location.t) (news : list Sample.t),
    valueOf (fillProfile [(mkKey 15958 7 (-14), 3); (mkKey 15958 9 7, 1)]
               true Scenario.stackTraces Scenario.prof 15958 Scenario.mm
               Scenario.store) = Some (prof', store')
    /\ Profile.SampleType prof' = Profile.SampleType Scenario.prof
    /\ Profile.TimeNanos prof' = Profile.TimeNanos Scenario.prof
    /\ Profile.DurationNanos prof' = Profile.DurationNanos Scenario.prof
    /\ Profile.PeriodType prof' = Profile.PeriodType Scenario.prof
    /\ Profile.Period prof' = Profile.Period Scenario.prof
    /\ Profile.Location prof' = Profile.Location Scenario.prof ++ created
    /\ Profile.Sample prof' = Profile.Sample Scenario.prof ++ news
    /\ (length news <= 2)%nat
    /\ Profile.Mapping prof' = Scenario.mm.
Proof.
  exact (fillProfile_only_appends _ true Scenario.stackTraces Scenario.prof
           15958 Scenario.mm Scenario.store validMappings_Scenario).
Defined.

(** The ids of the Locations follow their positions: a Location created by
    the call that sits at position [k] of [prof.Location], counted from 0,
    has id [k + 1].  Filling a fresh profile therefore numbers the
    Locations 1, 2, 3, ... without gaps, and no id is 0. *)
Theorem fillProfile_location_ids (counts : list (stackCountKey * Z))
    (itErr : bool) (stackTraces : StackTraces) (prof : Profile.t) (pid : Z)
    (mm : list MappingPtr) (store : MappingStore) :
  validMappings store mm ->
  exists (prof' : Profile.t) (store' : MappingStore),
    valueOf (fillProfile counts itErr stackTraces prof pid mm store) =
      Some (prof', store')
    /\ (forall (k : nat) (l : Location.t),
          (length (Profile.Location prof) <= k)%nat ->
          Profile.Location prof' !! k = Some l ->
          Location.ID l = Z.of_nat k + 1)
    /\ (Profile.Location prof = [] ->
        Location.ID <$> Profile.Location prof' =
          (fun k => Z.of_nat k + 1) <$> seq 0 (length (Profile.Location prof'))).
Proof.
  intros Hvalid.
  destruct (fillProfile_spec counts itErr stackTraces prof pid mm store
              Hvalid)
    as (prof' & store' & created & news & Hv & Hl & _ & _ & _ & _ & _
        & Hids & _).
  exists prof', store'. split; [exact Hv|].
  assert (Hpos : forall (k : nat) (l : Location.t),
            (length (Profile.Location prof) <= k)%nat ->
            Profile.Location prof' !! k = Some l ->
            Location.ID l = Z.of_nat k + 1).
  { intros k l Hk Hlook. rewrite Hl, lookup_app_r in Hlook by exact Hk.
    destruct (Hids _ l Hlook) as (Hid & _). rewrite Hid. lia. }
  split; [exact Hpos|].
  intros Hempty. apply list_eq. intros k.
  rewrite !list_lookup_fmap.
  destruct (Profile.Location prof' !! k) as [l|] eqn:Hk.
  - rewrite (lookup_seq_lt _ _ _ (lookup_lt_Some _ _ _ Hk)). cbn.
    f_equal. apply (Hpos k l); [rewrite Hempty; cbn; lia|exact Hk].
  - rewrite lookup_seq_ge by (apply lookup_ge_None; exact Hk). reflexivity.
Qed.

Lemma fillProfile_location_ids_witness :
  exists (prof' : Profile.t) (store' : MappingStore),
    valueOf (fillProfile [(mkKey 15958 7 (-14), 3); (mkKey 15958 5 5, 1)]
               false
               (fun id => if id =? 5 then Scenario.edgeTraces id
                          else Scenario.stackTraces id)
               Scenario.prof 15958 Scenario.mm Scenario.store) =
      Some (prof', store')
    /\ (forall (k : nat) (l : Location.t),
          (length (Profile.Location Scenario.prof) <= k)%nat ->
          Profile.Location prof' !! k = Some l ->
          Location.ID l = Z.of_nat k + 1)
    /\ (Profile.Location Scenario.prof = [] ->
        Location.ID <$> Profile.Location prof' =
          (fun k => Z.of_nat k + 1) <$> seq 0 (length (Profile.Location prof'))).
Proof.
  exact (fillProfile_location_ids _ false _ Scenario.prof 15958 Scenario.mm
           Scenario.store validMappings_Scenario).
Defined.

(** The count of a key becomes the value of its Sample through
    [int64(seen)]: a count below 2^63 is kept, a count from 2^63 on comes
    out negative, as [seen - 2^64]. *)
Theorem fillProfile_sample_value
    (pre post : list (stackCountKey * Z)) (key : stackCountKey) (seen : Z)
    (itErr : bool) (stackTraces : StackTraces) (prof : Profile.t) (pid : Z)
    (mm : list MappingPtr) (store : MappingStore) (userStack : list Z) :
  validMappings store mm ->
  readStacks stackTraces key = Some userStack ->
  is_uint64 seen ->
  exists (prof' : Profile.t) (store' : MappingStore) (news : list Sample.t)
         (s : Sample.t),
    valueOf (fillProfile (pre ++ (key, seen) :: post) itErr stackTraces
               prof pid mm store) = Some (prof', store')
    /\ Profile.Sample prof' = Profile.Sample prof ++ news
    /\ news !! length (expectedShapes stackTraces pre) = Some s
    /\ (seen < 2 ^ 63 -> Sample.Value s = [seen])
    /\ (2 ^ 63 <= seen ->
        Sample.Value s = [seen - 2 ^ 64] /\ seen - 2 ^ 64 < 0).
Proof.
  intros Hvalid Hread Hrange.
  destruct (fillProfile_spec (pre ++ (key, seen) :: post) itErr
              stackTraces prof pid mm store Hvalid)
    as (prof' & store' & created & news & Hv & _ & Hs & _ & _ & Hsh & _).
  rewrite expectedShapes_app, expectedShapes_cons in Hsh.
  unfold shapeOf in Hsh at 1. cbn [fst snd] in Hsh. rewrite Hread in Hsh.
  simpl option_list in Hsh. cbn [app] in Hsh.
  destruct (fmap_lookup_middle _ _ _ _ _ Hsh) as (s & Hlook & Hshape).
  exists prof', store', news, s.
  split; [exact Hv|]. split; [exact Hs|]. split; [exact Hlook|].
  injection Hshape as Hval _. rewrite Hval. unfold int64_of_uint64.
  unfold is_uint64, uint64_modulus in *.
  destruct (Z.ltb_spec seen (2 ^ 63)) as [Hlt|Hge].
  - split; [reflexivity|lia].
  - split; [lia|]. intros _. split; [reflexivity|lia].
Qed.

Lemma fillProfile_sample_value_witness :
  let key := mkKey 15958 7 (-14) in
  exists (prof' : Profile.t) (store' : MappingStore) (news : list Sample.t)
         (s : Sample.t),
    valueOf (fillProfile ([] ++ (key, 2 ^ 63 + 5) :: []) false
               Scenario.stackTraces Scenario.prof 15958 Scenario.mm
               Scenario.store) = Some (prof', store')
    /\ Profile.Sample prof' = Profile.Sample Scenario.prof ++ news
    /\ news !! length (expectedShapes Scenario.stackTraces []) = Some s
    /\ (2 ^ 63 + 5 < 2 ^ 63 -> Sample.Value s = [2 ^ 63 + 5])
    /\ (2 ^ 63 <= 2 ^ 63 + 5 ->
        Sample.Value s = [2 ^ 63 + 5 - 2 ^ 64] /\ 2 ^ 63 + 5 - 2 ^ 64 < 0).
Proof.
  intros key.
  apply (fillProfile_sample_value [] [] key (2 ^ 63 + 5) false
           Scenario.stackTraces Scenario.prof 15958 Scenario.mm
           Scenario.store (padStack [Scenario.fibNaive; Scenario.main])
           validMappings_Scenario).
  - vm_compute. reflexivity.
  - unfold is_uint64, uint64_modulus. lia.
Defined.

(** What a Location points to after the call: the mapping of a Location
    created by the call is a mapping of the list, it carries the id
    [i + 1] of its position [i] once the call is over, its bounds are those
    it had (so it still contains the address of the Location), and no
    mapping in front of it in the list contains that address. *)
Theorem fillProfile_location_mapping_id (counts : list (stackCountKey * Z))
    (itErr : bool) (stackTraces : StackTraces) (prof : Profile.t) (pid : Z)
    (mm : list MappingPtr) (store : MappingStore) :
  validMappings store mm -> NoDup mm ->
  exists (prof' : Profile.t) (store' : MappingStore)
         (created : list Location.t),
    valueOf (fillProfile counts itErr stackTraces prof pid mm store) =
      Some (prof', store')
    /\ Profile.Location prof' = Profile.Location prof ++ created
    /\ forall (l : Location.t) (p : MappingPtr),
         l ∈ created -> Location.Mapping l = Some p ->
         exists (i : nat) (m' : Mapping.t),
           Profile.Mapping prof' !! i = Some p
           /\ store' !! p = Some m'
           /\ Mapping.ID m' = Z.of_nat i + 1
           /\ contains m' (Location.Address l)
           /\ missesAll store' (Location.Address l) (take i mm).
Proof.
  intros Hvalid Hnd.
  destruct (fillProfile_spec counts itErr stackTraces prof pid mm store
              Hvalid)
    as (prof' & store' & created & news & Hv & Hl & _ & Hm & Hassign & _ & _
        & Hids & _).
  exists prof', store', created. split; [exact Hv|]. split; [exact Hl|].
  destruct (assignIDs_spec mm 0%nat store Hvalid)
    as (store'' & Hv' & _ & Hlast & Hkeep).
  assert (store'' = store') as -> by congruence.
  assert (Hback : forall (q : MappingPtr) (mq' : Mapping.t),
            q ∈ mm -> store' !! q = Some mq' ->
            exists mq id, store !! q = Some mq /\ mq' = Mapping.setID mq id).
  { intros q mq' Hq Hq'. unfold validMappings in Hvalid.
    rewrite Forall_forall in Hvalid. destruct (Hvalid q Hq) as [mq Hmq].
    destruct (Hkeep q mq Hmq) as (id & Hid).
    exists mq, id. split; [exact Hmq|congruence]. }
  intros l p Hlc Hp. apply list_elem_of_lookup in Hlc as (j & Hj).
  destruct (Hids j l Hj) as (_ & _ & Hfirst). rewrite Hp in Hfirst.
  destruct Hfirst as (i & m & Hi & Hpm & Hc & Hbefore).
  exists i, (Mapping.setID m (Z.of_nat i + 1)).
  split; [rewrite Hm; exact Hi|]. split.
  { rewrite (Hlast i p m Hi (NoDup_lookup_not_later _ _ _ Hnd Hi) Hpm).
    do 2 f_equal. lia. }
  split; [reflexivity|]. split; [exact Hc|].
  unfold missesAll in *. rewrite Forall_forall in Hbefore.
  apply Forall_forall. intros q Hq mq' Hq'.
  assert (Hqmm : q ∈ mm).
  { apply list_elem_of_lookup in Hq as (k & Hk).
    apply lookup_take_Some in Hk as [Hk _].
    exact (list_elem_of_lookup_2 _ _ _ Hk). }
  destruct (Hback q mq' Hqmm Hq') as (mq & id & Hmq & ->).
  exact (Hbefore q Hq mq Hmq).
Qed.

Lemma fillProfile_location_mapping_id_witness :
  exists (prof' : Profile.t) (store' : MappingStore)
         (created : list Location.t),
    valueOf (fillProfile [(mkKey 15958 5 (-14), 1)] false
               Scenario.edgeTraces Scenario.prof 15958 Scenario.mm
               Scenario.store) = Some (prof', store')
    /\ Profile.Location prof' = Profile.Location Scenario.prof ++ created
    /\ forall (l : Location.t) (p : MappingPtr),
         l ∈ created -> Location.Mapping l = Some p ->
         exists (i : nat) (m' : Mapping.t),
           Profile.Mapping prof' !! i = Some p
           /\ store' !! p = Some m'
           /\ Mapping.ID m' = Z.of_nat i + 1
           /\ contains m' (Location.Address l)
           /\ missesAll store' (Location.Address l) (take i Scenario.mm).
Proof.
  apply (fillProfile_location_mapping_id _ false Scenario.edgeTraces
           Scenario.prof 15958 Scenario.mm Scenario.store
           validMappings_Scenario).
  unfold Scenario.mm. apply NoDup_cons. split.
  - intros Hin. apply list_elem_of_singleton in Hin. discriminate.
  - apply NoDup_singleton.
Defined.

(** *** The profile does not depend on any pid *)

Lemma visitAddr_samePass (store : MappingStore) (pid pid' : Z)
    (mm : list MappingPtr) (st st' : State) (sl : list Location.t)
    (addr : Z) :
  samePass pid pid' st st' ->
  option_Forall2 (fun r r' => samePass pid pid' (fst r) (fst r')
                              /\ snd r = snd r')
    (valueOf (visitAddr store pid mm (st, sl) addr))
    (valueOf (visitAddr store pid' mm (st', sl) addr)).
Proof.
  intros (Hl & Hs & Hidx). unfold visitAddr.
  destruct (addr =? 0).
  - constructor. split; [|reflexivity]. split; [exact Hl|].
    split; [exact Hs|exact Hidx].
  - rewrite <- (Hidx addr), <- Hl.
    destruct (locationIndices st !! (pid, addr)) as [locIndex|].
    + destruct (locations st !! locIndex) as [l|]; constructor.
      split; [|reflexivity]. split; [exact Hl|]. split; [exact Hs|exact Hidx].
    + rewrite !valueOf_bind.
      destruct (valueOf (mappingForAddr store mm addr)) as [m|];
        [|constructor].
      cbn [mbind option_bind]. rewrite !valueOf_bind.
      destruct (valueOf (if m is Some _ then ret tt
                         else emit (LogNoMapping addr))) as [[]|];
        [|constructor].
      cbn [mbind option_bind locations].
      destruct ((locations st ++ _) !! length (locations st)) as [l|];
        constructor.
      split; [|reflexivity]. split; [reflexivity|]. split; [exact Hs|].
      intros addr'. cbn [locationIndices fst].
      destruct (decide (addr = addr')) as [->|Hne].
      * rewrite !lookup_insert_eq. reflexivity.
      * rewrite !lookup_insert_ne by congruence. apply Hidx.
Qed.

Lemma foldM_visitAddr_samePass (store : MappingStore) (pid pid' : Z)
    (mm : list MappingPtr) (stack : list Z) :
  forall (st st' : State) (sl : list Location.t),
    samePass pid pid' st st' ->
    option_Forall2 (fun r r' => samePass pid pid' (fst r) (fst r')
                                /\ snd r = snd r')
      (valueOf (foldM (visitAddr store pid mm) stack (st, sl)))
      (valueOf (foldM (visitAddr store pid' mm) stack (st', sl))).
Proof.
  induction stack as [|addr stack IH]; intros st st' sl Hsame.
  - constructor. split; [exact Hsame|reflexivity].
  - cbn [foldM]. rewrite !valueOf_bind.
    destruct (visitAddr_samePass store pid pid' mm st st' sl addr Hsame)
      as [[st1 sl1] [st1' sl1'] [Hsame1 Heq]|]; [|constructor].
    cbn [fst snd] in Hsame1, Heq. subst sl1'.
    cbn [mbind option_bind]. apply IH. exact Hsame1.
Qed.

Lemma processKey_samePass (store : MappingStore) (stackTraces : StackTraces)
    (pid pid' : Z) (mm : list MappingPtr) (st st' : State)
    (e e' : stackCountKey * Z) :
  samePass pid pid' st st' -> sameStacks e e' ->
  option_Forall2 (samePass pid pid')
    (valueOf (processKey store stackTraces pid mm st e))
    (valueOf (processKey store stackTraces pid' mm st' e')).
Proof.
  intros Hsame (Hu & Hk & Hseen).
  destruct e as [key seen], e' as [key' seen']. cbn [fst snd] in Hu, Hk, Hseen.
  subst seen'. unfold processKey. rewrite !valueOf_emit_bind, <- Hu, <- Hk.
  destruct (stackTraces (UserStackID key)) as [|userBytes];
    [constructor; exact Hsame|].
  destruct (binary_Read userBytes stackDepth) as [userStack|];
    [|constructor; exact Hsame].
  rewrite !valueOf_emit_bind.
  destruct (stackTraces (KernelStackID key)) as [|kernelBytes];
    [constructor; exact Hsame|].
  rewrite !valueOf_bind.
  destruct (valueOf
              match binary_Read kernelBytes stackDepth with
              | Some kernelStack =>
                  emit (PrintStack (KernelStackID key)
                          (tracedAddresses kernelStack))
              | None => emit LogKernelReadFailed
              end) as [[]|]; [|constructor].
  cbn [mbind option_bind]. rewrite ?valueOf_bind.
  destruct (foldM_visitAddr_samePass store pid pid' mm userStack st st' []
              Hsame) as [[st1 sl1] [st1' sl1'] [Hsame1 Heq]|]; [|constructor].
  cbn [fst snd] in Hsame1, Heq. subst sl1'.
  cbn [mbind option_bind]. constructor.
  destruct Hsame1 as (Hl1 & Hs1 & Hidx1).
  split; [exact Hl1|]. split; [cbn; rewrite Hs1; reflexivity|exact Hidx1].
Qed.

Lemma foldM_processKey_samePass (store : MappingStore)
    (stackTraces : StackTraces) (pid pid' : Z) (mm : list MappingPtr)
    (counts counts' : list (stackCountKey * Z)) :
  Forall2 sameStacks counts counts' ->
  forall st st' : State,
    samePass pid pid' st st' ->
    option_Forall2 (samePass pid pid')
      (valueOf (foldM (processKey store stackTraces pid mm) counts st))
      (valueOf (foldM (processKey store stackTraces pid' mm) counts' st')).
Proof.
  induction 1 as [|e e' counts counts' He _ IH]; intros st st' Hsame.
  - constructor. exact Hsame.
  - cbn [foldM]. rewrite !valueOf_bind.
    destruct (processKey_samePass store stackTraces pid pid' mm st st' e e'
                Hsame He) as [st1 st1' Hsame1|]; [|constructor].
    cbn [mbind option_bind]. apply IH. exact Hsame1.
Qed.

(** No pid has any effect on the profile: neither the [PID] of the keys
    of the counts map (the samples of all processes found in the map are
    put together), nor the [pid] argument, which only tags the keys of the
    index of locations; nor does a failure of the iteration.  Two calls
    that read the same stack ids and counts give the same profile and the
    same mappings. *)
Theorem fillProfile_ignores_pids (counts counts' : list (stackCountKey * Z))
    (itErr itErr' : bool) (stackTraces : StackTraces) (prof : Profile.t)
    (pid pid' : Z) (mm : list MappingPtr) (store : MappingStore) :
  Forall2 sameStacks counts counts' ->
  valueOf (fillProfile counts itErr stackTraces prof pid mm store) =
  valueOf (fillProfile counts' itErr' stackTraces prof pid' mm store).
Proof.
  intros Hcounts. unfold fillProfile. rewrite !valueOf_bind.
  set (st0 := {| locations := Profile.Location prof;
                 samples := Profile.Sample prof;
                 locationIndices := ∅ |}).
  assert (Hsame0 : samePass pid pid' st0 st0).
  { split; [reflexivity|]. split; [reflexivity|]. intros addr.
    subst st0. cbn. rewrite !lookup_empty. reflexivity. }
  destruct (foldM_processKey_samePass store stackTraces pid pid' mm counts
              counts' Hcounts st0 st0 Hsame0)
    as [st st' (Hl & Hs & _)|]; [|reflexivity].
  cbn [mbind option_bind]. rewrite ?valueOf_bind.
  assert (He : forall b : bool,
            valueOf (if b then emit LogCountsFailed else ret tt) = Some tt)
    by (intros []; reflexivity).
  rewrite !He. cbn [mbind option_bind]. rewrite ?valueOf_bind.
  rewrite Hl, Hs. reflexivity.
Qed.

Lemma fillProfile_ignores_pids_witness :
  valueOf (fillProfile [(mkKey 15958 7 (-14), 3); (mkKey 15958 8 7, 1)]
             false Scenario.stackTraces Scenario.prof 15958 Scenario.mm
             Scenario.store) =
  valueOf (fillProfile [(mkKey 1 7 (-14), 3); (mkKey 4242 8 7, 1)]
             true Scenario.stackTraces Scenario.prof 0 Scenario.mm
             Scenario.store).
Proof.
  apply fillProfile_ignores_pids.
  repeat constructor.
Defined.

(** *** No Location without a Sample *)

Lemma visitAddr_covered (store : MappingStore) (pid : Z)
    (mm : list MappingPtr) (n0 m0 : nat) (st st' : State)
    (sl sl' : list Location.t) (addr : Z) :
  valueOf (visitAddr store pid mm (st, sl) addr) = Some (st', sl') ->
  covered n0 m0 st sl -> covered n0 m0 st' sl'.
Proof.
  unfold visitAddr. intros Hv [Hm Hcov].
  destruct (addr =? 0).
  - injection Hv as <- <-. split; assumption.
  - destruct (locationIndices st !! (pid, addr)) as [locIndex|].
    + destruct (locations st !! locIndex) as [l0|]; [|discriminate].
      injection Hv as <- <-. split; [exact Hm|].
      intros i l Hi Hl. destruct (Hcov i l Hi Hl) as [Hin|Hs].
      * left. apply elem_of_app. left. exact Hin.
      * right. exact Hs.
    + rewrite valueOf_bind in Hv.
      destruct (valueOf (mappingForAddr store mm addr)) as [m|];
        [|discriminate].
      cbn [mbind option_bind] in Hv. rewrite valueOf_bind in Hv.
      destruct (valueOf (if m is Some _ then ret tt
                         else emit (LogNoMapping addr))) as [[]|];
        [|discriminate].
      cbn [mbind option_bind locations] in Hv.
      rewrite list_lookup_middle in Hv by reflexivity.
      injection Hv as <- <-. split; [exact Hm|].
      intros i l Hi Hl. cbn [locations samples] in *.
      apply lookup_app_Some in Hl as [Hl|[Hlen Hl]].
      * destruct (Hcov i l Hi Hl) as [Hin|Hs].
        -- left. apply elem_of_app. left. exact Hin.
        -- right. exact Hs.
      * left. apply elem_of_app. right.
        exact (list_elem_of_lookup_2 _ _ _ Hl).
Qed.

Lemma foldM_visitAddr_covered (store : MappingStore) (pid : Z)
    (mm : list MappingPtr) (n0 m0 : nat) (stack : list Z) :
  forall (st st' : State) (sl sl' : list Location.t),
    valueOf (foldM (visitAddr store pid mm) stack (st, sl)) =
      Some (st', sl') ->
    covered n0 m0 st sl -> covered n0 m0 st' sl'.
Proof.
  induction stack as [|addr stack IH]; intros st st' sl sl' Hv Hcov.
  - injection Hv as <- <-. exact Hcov.
  - cbn [foldM] in Hv. rewrite valueOf_bind in Hv.
    destruct (valueOf (visitAddr store pid mm (st, sl) addr))
      as [[st1 sl1]|] eqn:Hv1; [|discriminate].
    cbn [mbind option_bind] in Hv.
    exact (IH st1 st' sl1 sl' Hv
             (visitAddr_covered _ _ _ _ _ _ _ _ _ _ Hv1 Hcov)).
Qed.

Lemma processKey_covered (store : MappingStore) (stackTraces : StackTraces)
    (pid : Z) (mm : list MappingPtr) (n0 m0 : nat) (st st' : State)
    (entry : stackCountKey * Z) :
  valueOf (processKey store stackTraces pid mm st entry) = Some st' ->
  covered n0 m0 st [] -> covered n0 m0 st' [].
Proof.
  destruct entry as [key seen]. unfold processKey.
  rewrite valueOf_emit_bind. intros Hv Hcov.
  destruct (stackTraces (UserStackID key)) as [|userBytes];
    [injection Hv as <-; exact Hcov|].
  destruct (binary_Read userBytes stackDepth) as [userStack|];
    [|injection Hv as <-; exact Hcov].
  rewrite valueOf_emit_bind in Hv.
  destruct (stackTraces (KernelStackID key)) as [|kernelBytes];
    [injection Hv as <-; exact Hcov|].
  rewrite valueOf_bind in Hv.
  destruct (valueOf
              match binary_Read kernelBytes stackDepth with
              | Some kernelStack =>
                  emit (PrintStack (KernelStackID key)
                          (tracedAddresses kernelStack))
              | None => emit LogKernelReadFailed
              end) as [[]|]; [|discriminate].
  cbn [mbind option_bind] in Hv. rewrite ?valueOf_bind in Hv.
  destruct (valueOf (foldM (visitAddr store pid mm) userStack (st, [])))
    as [[st1 sl1]|] eqn:Hfold; [|discriminate].
  cbn in Hv. injection Hv as <-.
  destruct (foldM_visitAddr_covered _ _ _ n0 m0 _ _ _ _ _ Hfold Hcov)
    as [Hm Hcov1].
  split; [cbn; rewrite length_app; lia|].
  intros i l Hi Hl. cbn [locations samples] in *. right.
  rewrite drop_app_le by exact Hm.
  destruct (Hcov1 i l Hi Hl) as [Hin|(s & Hs & Hls)].
  - eexists. split; [apply elem_of_app; right; left|]. exact Hin.
  - exists s. split; [apply elem_of_app; left; exact Hs|exact Hls].
Qed.

Lemma foldM_processKey_covered (store : MappingStore)
    (stackTraces : StackTraces) (pid : Z) (mm : list MappingPtr)
    (n0 m0 : nat) (counts : list (stackCountKey * Z)) :
  forall st st' : State,
    valueOf (foldM (processKey store stackTraces pid mm) counts st) =
      Some st' ->
    covered n0 m0 st [] -> covered n0 m0 st' [].
Proof.
  induction counts as [|entry counts IH]; intros st st' Hv Hcov.
  - injection Hv as <-. exact Hcov.
  - cbn [foldM] in Hv. rewrite valueOf_bind in Hv.
    destruct (valueOf (processKey store stackTraces pid mm st entry))
      as [st1|] eqn:Hv1; [|discriminate].
    cbn [mbind option_bind] in Hv.
    exact (IH st1 st' Hv (processKey_covered _ _ _ _ _ _ _ _ _ Hv1 Hcov)).
Qed.

(** [fillProfile] leaves no Location without a Sample: every Location it
    creates is in the location list of a Sample it appends. *)
Theorem fillProfile_no_orphan_location (counts : list (stackCountKey * Z))
    (itErr : bool) (stackTraces : StackTraces) (prof : Profile.t) (pid : Z)
    (mm : list MappingPtr) (store : MappingStore) :
  validMappings store mm ->
  exists (prof' : Profile.t) (store' : MappingStore)
         (created : list Location.t) (news : list Sample.t),
    valueOf (fillProfile counts itErr stackTraces prof pid mm store) =
      Some (prof', store')
    /\ Profile.Location prof' = Profile.Location prof ++ created
    /\ Profile.Sample prof' = Profile.Sample prof ++ news
    /\ forall l : Location.t,
         l ∈ created ->
         exists s : Sample.t, s ∈ news /\ l ∈ Sample.Location s.
Proof.
  intros Hvalid.
  destruct (fillProfile_spec counts itErr stackTraces prof pid mm store
              Hvalid)
    as (prof' & store' & created & news & Hv & Hl & Hs & _).
  exists prof', store', created, news.
  split; [exact Hv|]. split; [exact Hl|]. split; [exact Hs|].
  unfold fillProfile in Hv. rewrite valueOf_bind in Hv.
  destruct (valueOf (foldM (processKey store stackTraces pid mm) counts _))
    as [st|] eqn:Hfold; [|discriminate].
  cbn [mbind option_bind] in Hv. rewrite ?valueOf_bind in Hv.
  destruct (valueOf (if itErr then emit LogCountsFailed else ret tt));
    [|discriminate].
  cbn [mbind option_bind] in Hv.
  destruct (valueOf (assignIDs mm 0%nat store)); [|discriminate].
  cbn in Hv. injection Hv as Hprof _.
  assert (Hlst : locations st = Profile.Location prof ++ created)
    by (rewrite <- Hl, <- Hprof; reflexivity).
  assert (Hsst : samples st = Profile.Sample prof ++ news)
    by (rewrite <- Hs, <- Hprof; reflexivity).
  assert (Hcov0 : covered (length (Profile.Location prof))
                    (length (Profile.Sample prof))
                    {| locations := Profile.Location prof;
                       samples := Profile.Sample prof;
                       locationIndices := ∅ |} []).
  { split; [cbn; lia|]. intros i l Hi Hlook. cbn in Hlook.
    apply lookup_lt_Some in Hlook. lia. }
  destruct (foldM_processKey_covered _ _ _ _ _ _ _ _ _ Hfold Hcov0)
    as [_ Hcov].
  intros l Hlc. apply list_elem_of_lookup in Hlc as (j & Hj).
  destruct (Hcov (length (Profile.Location prof) + j)%nat l ltac:(lia))
    as [Hnil|(s & Hsn & Hls)].
  - rewrite Hlst, lookup_app_r by lia.
    replace (length (Profile.Location prof) + j
             - length (Profile.Location prof))%nat with j by lia.
    exact Hj.
  - inversion Hnil.
  - exists s. split; [|exact Hls].
    rewrite Hsst, drop_app_length in Hsn. exact Hsn.
Qed.

Lemma fillProfile_no_orphan_location_witness :
  exists (prof' : Profile.t) (store' : MappingStore)
         (created : list Location.t) (news : list Sample.t),
    valueOf (fillProfile [(mkKey 15958 7 (-14), 3); (mkKey 15958 8 7, 1)]
               false Scenario.stackTraces Scenario.prof 15958 Scenario.mm
               Scenario.store) = Some (prof', store')
    /\ Profile.Location prof' = Profile.Location Scenario.prof ++ created
    /\ Profile.Sample prof' = Profile.Sample Scenario.prof ++ news
    /\ forall l : Location.t,
         l ∈ created ->
         exists s : Sample.t, s ∈ news /\ l ∈ Sample.Location s.
Proof.
  exact (fillProfile_no_orphan_location _ false Scenario.stackTraces
           Scenario.prof 15958 Scenario.mm Scenario.store
           validMappings_Scenario).
Defined.

(** *** What [fillProfile] prints *)

Lemma bind_Some_inv {A B : Type} (m : M A) (k : A -> M B) (b : B)
    (out : list Event) :
  bind m k = Some (b, out) ->
  exists (a : A) (o1 o2 : list Event),
    m = Some (a, o1) /\ k a = Some (b, o2) /\ out = o1 ++ o2.
Proof.
  unfold bind. destruct m as [[a o1]|]; [|discriminate].
  destruct (k a) as [[b' o2]|] eqn:Hk; [|discriminate].
  intros [= <- <-]. exists a, o1, o2. repeat split. exact Hk.
Qed.

Lemma withoutNoMapping_app (o1 o2 : list Event) :
  withoutNoMapping (o1 ++ o2) = withoutNoMapping o1 ++ withoutNoMapping o2.
Proof. apply filter_app. Qed.

Lemma mappingForAddr_silent (store : MappingStore) (mm : list MappingPtr)
    (addr : Z) (r : option MappingPtr) (out : list Event) :
  mappingForAddr store mm addr = Some (r, out) -> out = [].
Proof.
  induction mm as [|p rest IH]; cbn [mappingForAddr].
  - intros [= _ <-]. reflexivity.
  - destruct (store !! p) as [m|]; [|discriminate].
    destruct ((Mapping.Start m <=? addr) && (Mapping.Limit m >=? addr)).
    + intros [= _ <-]. reflexivity.
    + exact IH.
Qed.

Lemma visitAddr_events (store : MappingStore) (pid : Z)
    (mm : list MappingPtr) (acc r : State * list Location.t) (addr : Z)
    (out : list Event) :
  visitAddr store pid mm acc addr = Some (r, out) ->
  withoutNoMapping out = [].
Proof.
  destruct acc as [st sl]. unfold visitAddr.
  destruct (addr =? 0); [intros [= _ <-]; reflexivity|].
  destruct (locationIndices st !! (pid, addr)) as [locIndex|].
  - destruct (locations st !! locIndex); [|discriminate].
    intros [= _ <-]. reflexivity.
  - intros Hb. apply bind_Some_inv in Hb as (m & o1 & o2 & Hm & Hb & ->).
    apply mappingForAddr_silent in Hm. subst o1.
    apply bind_Some_inv in Hb as ([] & o3 & o4 & He & Hb & ->).
    cbn [locations] in Hb. rewrite list_lookup_middle in Hb by reflexivity.
    injection Hb as _ <-. destruct m; injection He as <-; reflexivity.
Qed.

Lemma foldM_visitAddr_events (store : MappingStore) (pid : Z)
    (mm : list MappingPtr) (stack : list Z) :
  forall (acc r : State * list Location.t) (out : list Event),
    foldM (visitAddr store pid mm) stack acc = Some (r, out) ->
    withoutNoMapping out = [].
Proof.
  induction stack as [|addr stack IH]; intros acc r out; cbn [foldM].
  - intros [= _ <-]. reflexivity.
  - intros Hb. apply bind_Some_inv in Hb as (acc1 & o1 & o2 & H1 & H2 & ->).
    rewrite withoutNoMapping_app, (visitAddr_events _ _ _ _ _ _ _ H1),
      (IH _ _ _ H2).
    reflexivity.
Qed.

Lemma processKey_events (store : MappingStore) (stackTraces : StackTraces)
    (pid : Z) (mm : list MappingPtr) (st st' : State)
    (entry : stackCountKey * Z) (out : list Event) :
  processKey store stackTraces pid mm st entry = Some (st', out) ->
  printKey stackTraces entry = Some (tt, withoutNoMapping out).
Proof.
  destruct entry as [key seen]. unfold processKey, printKey.
  destruct (stackTraces (UserStackID key)) as [|userBytes];
    [intros [= _ <-]; reflexivity|].
  destruct (binary_Read userBytes stackDepth) as [userStack|];
    [|intros [= _ <-]; reflexivity].
  destruct (stackTraces (KernelStackID key)) as [|kernelBytes];
    [intros [= _ <-]; reflexivity|].
  intros Hb.
  apply bind_Some_inv in Hb as ([] & o1 & o2 & [= <-] & Hb & ->).
  apply bind_Some_inv in Hb as ([] & o3 & o4 & [= <-] & Hb & ->).
  apply bind_Some_inv in Hb as ([] & o5 & o6 & Hk & Hb & ->).
  apply bind_Some_inv in Hb as ([st1 sl1] & o7 & o8 & Hfold & Hb & ->).
  injection Hb as _ <-.
  rewrite !withoutNoMapping_app, (foldM_visitAddr_events _ _ _ _ _ _ _ Hfold).
  destruct (binary_Read kernelBytes stackDepth); injection Hk as <-;
    reflexivity.
Qed.

Lemma foldM_processKey_events (store : MappingStore)
    (stackTraces : StackTraces) (pid : Z) (mm : list MappingPtr)
    (counts : list (stackCountKey * Z)) :
  forall (st st' : State) (out : list Event),
    foldM (processKey store stackTraces pid mm) counts st = Some (st', out) ->
    foldM (fun _ entry => printKey stackTraces entry) counts tt =
      Some (tt, withoutNoMapping out).
Proof.
  induction counts as [|entry counts IH]; intros st st' out; cbn [foldM].
  - intros [= _ <-]. reflexivity.
  - intros Hb. apply bind_Some_inv in Hb as (st1 & o1 & o2 & H1 & H2 & ->).
    rewrite (processKey_events _ _ _ _ _ _ _ _ H1). cbn [bind].
    rewrite (IH _ _ _ H2), withoutNoMapping_app. reflexivity.
Qed.

(** [fillProfile] prints and logs what one tick of profiler2's loop does on
    the same maps, in the same order, and besides that only the reports of
    addresses that lie in no mapping. *)
Theorem fillProfile_prints_like_ticker (counts : list (stackCountKey * Z))
    (itErr : bool) (stackTraces : StackTraces) (prof : Profile.t) (pid : Z)
    (mm : list MappingPtr) (store : MappingStore)
    (r : Profile.t * MappingStore) (out : list Event) :
  fillProfile counts itErr stackTraces prof pid mm store = Some (r, out) ->
  printStacks counts itErr stackTraces = Some (tt, withoutNoMapping out).
Proof.
  unfold fillProfile, printStacks. intros Hb.
  apply bind_Some_inv in Hb as (st & o1 & o2 & Hfold & Hb & ->).
  apply bind_Some_inv in Hb as ([] & o3 & o4 & He & Hb & ->).
  apply bind_Some_inv in Hb as (store' & o5 & o6 & Hids & Hb & ->).
  injection Hb as _ <-.
  rewrite (foldM_processKey_events _ _ _ _ _ _ _ _ Hfold). cbn [bind].
  assert (Hsilent : o5 = []).
  { clear -Hids. revert Hids. generalize 0%nat. generalize store.
    induction mm as [|p rest IH]; intros store0 i; cbn [assignIDs].
    - intros [= _ <-]. reflexivity.
    - destruct (store0 !! p); [|discriminate]. apply IH. }
  subst o5. rewrite !withoutNoMapping_app.
  destruct itErr; injection He as <-; cbn; rewrite ?app_nil_r; reflexivity.
Qed.

Lemma fillProfile_prints_like_ticker_witness :
  exists (r : Profile.t * MappingStore) (out : list Event),
    fillProfile [(mkKey 15958 5 (-14), 1); (mkKey 15958 7 9, 2)] true
      Scenario.edgeTraces Scenario.prof 15958 Scenario.mm Scenario.store =
      Some (r, out)
    /\ out =
         [PrintSeen (mkKey 15958 5 (-14)) 1;
          PrintStack 5 [Scenario.atLimit; Scenario.unmapped];
          LogKernelReadFailed;
          LogNoMapping Scenario.unmapped;
          PrintSeen (mkKey 15958 7 9) 2;
          LogUserReadFailed;
          LogCountsFailed]
    /\ printStacks [(mkKey 15958 5 (-14), 1); (mkKey 15958 7 9, 2)] true
         Scenario.edgeTraces = Some (tt, withoutNoMapping out).
Proof.
  destruct (fillProfile [(mkKey 15958 5 (-14), 1); (mkKey 15958 7 9, 2)]
              true Scenario.edgeTraces Scenario.prof 15958 Scenario.mm
              Scenario.store) as [[r out]|] eqn:Hrun;
    [|vm_compute in Hrun; discriminate].
  exists r, out. split; [reflexivity|]. split.
  - vm_compute in Hrun. injection Hrun as _ <-. reflexivity.
  - exact (fillProfile_prints_like_ticker _ _ _ _ _ _ _ _ _ Hrun).
Defined.

(** ** The BPF program *)

Lemma do_sample_idle (ctx : Ctx) (counts : CountsMap) :
  pid_tgid ctx mod 2 ^ 32 = 0 -> do_sample ctx counts = counts.
Proof.
  intros Hz. unfold do_sample. cbn zeta. rewrite Hz. reflexivity.
Qed.

Lemma do_sample_present (ctx : Ctx) (counts : CountsMap) (seen : Z) :
  pid_tgid ctx mod 2 ^ 32 <> 0 ->
  counts !! key_of ctx = Some seen ->
  do_sample ctx counts = <[key_of ctx := wrap64 (seen + 1)]> counts.
Proof.
  intros Hnz Hk. unfold do_sample. cbn zeta.
  destruct (Z.eqb_spec (pid_tgid ctx mod 2 ^ 32) 0); [contradiction|].
  fold (key_of ctx). unfold bpf_map_lookup_or_try_init.
  rewrite Hk, Hk. reflexivity.
Qed.

Lemma do_sample_new (ctx : Ctx) (counts : CountsMap) :
  pid_tgid ctx mod 2 ^ 32 <> 0 ->
  counts !! key_of ctx = None ->
  do_sample ctx counts =
    if Z.of_nat (size counts) <? counts_max_entries
    then <[key_of ctx := 1]> counts
    else counts.
Proof.
  intros Hnz Hk. unfold do_sample. cbn zeta.
  destruct (Z.eqb_spec (pid_tgid ctx mod 2 ^ 32) 0); [contradiction|].
  fold (key_of ctx). unfold bpf_map_lookup_or_try_init. rewrite Hk.
  destruct (Z.of_nat (size counts) <? counts_max_entries); [|reflexivity].
  rewrite lookup_insert_eq, insert_insert_eq. reflexivity.
Qed.

(** One run of [do_sample] touches one counter at most, that of its key,
    which holds the thread group id and the two stack ids, negative ones
    included: the counter goes up by one, in [uint64]; a key not yet in the
    map starts at 1, or is dropped when the map is full; and a run for
    thread id 0 changes nothing. *)
Theorem do_sample_effect (ctx : Ctx) (counts : CountsMap) :
  (pid_tgid ctx mod 2 ^ 32 = 0 -> do_sample ctx counts = counts)
  /\ (forall k : stack_count_key_t,
        k <> key_of ctx -> do_sample ctx counts !! k = counts !! k)
  /\ (pid_tgid ctx mod 2 ^ 32 <> 0 ->
      (forall seen : Z,
          counts !! key_of ctx = Some seen ->
          do_sample ctx counts !! key_of ctx = Some (wrap64 (seen + 1)))
      /\ (counts !! key_of ctx = None ->
          Z.of_nat (size counts) < counts_max_entries ->
          do_sample ctx counts !! key_of ctx = Some 1)
      /\ (counts !! key_of ctx = None ->
          counts_max_entries <= Z.of_nat (size counts) ->
          do_sample ctx counts = counts)).
Proof.
  split; [apply do_sample_idle|]. split.
  - intros k Hk.
    destruct (Z.eq_dec (pid_tgid ctx mod 2 ^ 32) 0) as [Hz|Hnz];
      [rewrite (do_sample_idle _ _ Hz); reflexivity|].
    destruct (counts !! key_of ctx) as [seen|] eqn:Hkey.
    + rewrite (do_sample_present _ _ _ Hnz Hkey).
      apply lookup_insert_ne. congruence.
    + rewrite (do_sample_new _ _ Hnz Hkey).
      destruct (Z.of_nat (size counts) <? counts_max_entries);
        [apply lookup_insert_ne; congruence|reflexivity].
  - intros Hnz. split; [|split].
    + intros seen Hkey. rewrite (do_sample_present _ _ _ Hnz Hkey).
      apply lookup_insert_eq.
    + intros Hkey Hroom. rewrite (do_sample_new _ _ Hnz Hkey).
      destruct (Z.ltb_spec (Z.of_nat (size counts)) counts_max_entries);
        [apply lookup_insert_eq|lia].
    + intros Hkey Hfull. rewrite (do_sample_new _ _ Hnz Hkey).
      destruct (Z.ltb_spec (Z.of_nat (size counts)) counts_max_entries);
        [lia|reflexivity].
Qed.

Lemma do_sample_effect_witness :
  let ctx := mkCtx (15958 * 2 ^ 32 + 15960) 709 (-14) in
  let counts : CountsMap := {[ (15958, 709, -14) := 41 ]} in
  key_of ctx = (15958, 709, -14)
  /\ do_sample ctx counts !! key_of ctx = Some (wrap64 (41 + 1))
  /\ do_sample (mkCtx (15958 * 2 ^ 32) 709 (-14)) counts = counts
  /\ do_sample ctx ∅ !! key_of ctx = Some 1.
Proof.
  intros ctx counts. split; [reflexivity|].
  assert (Hnz : pid_tgid ctx mod 2 ^ 32 <> 0) by (vm_compute; discriminate).
  split; [|split].
  - destruct (do_sample_effect ctx counts) as (_ & _ & Hrun).
    apply (proj1 (Hrun Hnz) 41). reflexivity.
  - destruct (do_sample_effect (mkCtx (15958 * 2 ^ 32) 709 (-14)) counts)
      as (Hidle & _).
    apply Hidle. reflexivity.
  - destruct (do_sample_effect ctx ∅) as (_ & _ & Hrun).
    apply (proj1 (proj2 (Hrun Hnz))); [reflexivity|].
    vm_compute. reflexivity.
Defined.

(** The [counts] map never grows beyond [max_entries]. *)
Theorem do_sample_size (ctx : Ctx) (counts : CountsMap) :
  Z.of_nat (size counts) <= counts_max_entries ->
  Z.of_nat (size (do_sample ctx counts)) <= counts_max_entries
  /\ (size counts <= size (do_sample ctx counts) <= S (size counts))%nat.
Proof.
  intros Hsize.
  destruct (Z.eq_dec (pid_tgid ctx mod 2 ^ 32) 0) as [Hz|Hnz];
    [rewrite (do_sample_idle _ _ Hz); lia|].
  destruct (counts !! key_of ctx) as [seen|] eqn:Hkey.
  - rewrite (do_sample_present _ _ _ Hnz Hkey).
    rewrite map_size_insert_Some by (exists seen; exact Hkey). lia.
  - rewrite (do_sample_new _ _ Hnz Hkey).
    destruct (Z.ltb_spec (Z.of_nat (size counts)) counts_max_entries);
      [|lia].
    rewrite map_size_insert_None by exact Hkey. lia.
Qed.

Lemma do_sample_size_witness :
  let ctx := mkCtx (15958 * 2 ^ 32 + 15960) 709 (-14) in
  Z.of_nat (size (do_sample ctx ∅)) <= counts_max_entries
  /\ (size (∅ : CountsMap) <= size (do_sample ctx ∅)
      <= S (size (∅ : CountsMap)))%nat.
Proof.
  intros ctx. apply (do_sample_size ctx ∅). vm_compute. discriminate.
Defined.

Lemma wrap64_succ (z : Z) : wrap64 (wrap64 z + 1) = wrap64 (z + 1).
Proof. unfold wrap64. apply Z.add_mod_idemp_l. cbv. discriminate. Qed.

Lemma do_sample_iter (ctx : Ctx) (counts : CountsMap) (seen : Z) (n : nat) :
  pid_tgid ctx mod 2 ^ 32 <> 0 ->
  counts !! key_of ctx = Some seen -> is_uint64 seen ->
  Nat.iter n (do_sample ctx) counts =
    <[key_of ctx := wrap64 (seen + Z.of_nat n)]> counts.
Proof.
  intros Hnz Hkey Hrange. induction n as [|n IH].
  - change (Nat.iter 0 (do_sample ctx) counts) with counts.
    rewrite Z.add_0_r. unfold wrap64.
    rewrite Z.mod_small by exact Hrange. symmetry. apply insert_id.
    exact Hkey.
  - change (Nat.iter (S n) (do_sample ctx) counts)
      with (do_sample ctx (Nat.iter n (do_sample ctx) counts)).
    rewrite IH.
    rewrite (do_sample_present ctx _ (wrap64 (seen + Z.of_nat n)) Hnz)
      by apply lookup_insert_eq.
    rewrite insert_insert_eq, wrap64_succ. do 2 f_equal. lia.
Qed.

(** Sampling the same thread with the same stacks [n] times raises the
    counter of the key by [n], in [uint64] (a counter at 2^64 - 1 starts
    again at 0), and leaves every other counter as it was. *)
Theorem do_sample_repeated (ctx : Ctx) (counts : CountsMap) (seen : Z)
    (n : nat) :
  pid_tgid ctx mod 2 ^ 32 <> 0 ->
  counts !! key_of ctx = Some seen -> is_uint64 seen ->
  Nat.iter n (do_sample ctx) counts !! key_of ctx =
    Some ((seen + Z.of_nat n) mod 2 ^ 64)
  /\ forall k : stack_count_key_t,
       k <> key_of ctx ->
       Nat.iter n (do_sample ctx) counts !! k = counts !! k.
Proof.
  intros Hnz Hkey Hrange.
  rewrite (do_sample_iter ctx counts seen n Hnz Hkey Hrange). split.
  - apply lookup_insert_eq.
  - intros k Hk. apply lookup_insert_ne. congruence.
Qed.

Lemma do_sample_repeated_witness :
  let ctx := mkCtx (15958 * 2 ^ 32 + 15960) 709 (-14) in
  let counts : CountsMap := {[ (15958, 709, -14) := 2 ^ 64 - 2;
                               (15958, 132, 114) := 7 ]} in
  Nat.iter 5 (do_sample ctx) counts !! key_of ctx =
    Some ((2 ^ 64 - 2 + Z.of_nat 5) mod 2 ^ 64)
  /\ forall k : stack_count_key_t,
       k <> key_of ctx ->
       Nat.iter 5 (do_sample ctx) counts !! k = counts !! k.
Proof.
  intros ctx counts.
  apply (do_sample_repeated ctx counts (2 ^ 64 - 2) 5).
  - vm_compute. discriminate.
  - vm_compute. reflexivity.
  - unfold is_uint64, uint64_modulus. lia.
Defined.

(** ** From the sampler to the profile *)

Lemma do_sample_first (ctx : Ctx) (n : nat) :
  pid_tgid ctx mod 2 ^ 32 <> 0 ->
  Nat.iter (S n) (do_sample ctx) ∅ =
    {[ key_of ctx := wrap64 (1 + Z.of_nat n) ]}.
Proof.
  intros Hnz. rewrite Nat.iter_succ_r.
  rewrite (do_sample_new ctx ∅ Hnz) by apply lookup_empty.
  replace (Z.of_nat (size (∅ : CountsMap)) <? counts_max_entries) with true
    by (rewrite map_size_empty; reflexivity).
  rewrite (do_sample_iter ctx _ 1 n Hnz).
  - rewrite insert_insert_eq, insert_empty. reflexivity.
  - apply lookup_insert_eq.
  - unfold is_uint64, uint64_modulus. lia.
Qed.

(** The number of times a stack was sampled is the value of its Sample:
    after [n] runs of [do_sample] for one thread with the same two stack
    ids, from an empty counts map, [fillProfile] on the entries of the map
    appends one Sample, its value is [n] and its locations are the nonzero
    addresses of the user stack (for [n] below 2^63 and stacks the table
    can be read for). *)
Theorem sampled_count_in_profile (ctx : Ctx) (n : nat) (itErr : bool)
    (stackTraces : StackTraces) (prof : Profile.t) (pid : Z)
    (mm : list MappingPtr) (store : MappingStore) (userStack : list Z) :
  pid_tgid ctx mod 2 ^ 32 <> 0 ->
  (0 < n)%nat -> Z.of_nat n < 2 ^ 63 ->
  readStacks stackTraces
    (mkKey (Z.shiftr (pid_tgid ctx) 32 mod 2 ^ 32) (user_stackid ctx)
       (kernel_stackid ctx)) = Some userStack ->
  validMappings store mm ->
  exists (prof' : Profile.t) (store' : MappingStore) (s : Sample.t),
    valueOf (fillProfile (Iterate (Nat.iter n (do_sample ctx) ∅)) itErr
               stackTraces prof pid mm store) = Some (prof', store')
    /\ Profile.Sample prof' = Profile.Sample prof ++ [s]
    /\ Sample.Value s = [Z.of_nat n]
    /\ Location.Address <$> Sample.Location s = nonzero userStack.
Proof.
  intros Hnz Hpos Hn Hread Hvalid.
  destruct n as [|n]; [lia|].
  rewrite (do_sample_first ctx n Hnz).
  unfold Iterate. rewrite map_to_list_singleton.
  cbn [fmap list_fmap fst snd key_of].
  destruct (fillProfile_spec
              [(mkKey (Z.shiftr (pid_tgid ctx) 32 mod 2 ^ 32)
                  (user_stackid ctx) (kernel_stackid ctx),
                wrap64 (1 + Z.of_nat n))]
              itErr stackTraces prof pid mm store Hvalid)
    as (prof' & store' & created & news & Hv & _ & Hs & _ & _ & Hsh & _).
  unfold expectedShapes in Hsh. cbn [omap list_omap] in Hsh.
  unfold shapeOf in Hsh. cbn [fst snd] in Hsh. rewrite Hread in Hsh.
  destruct news as [|s [|s' news]]; try discriminate.
  exists prof', store', s. split; [exact Hv|]. split; [exact Hs|].
  cbn in Hsh. injection Hsh as Hval Haddr.
  split; [|exact Haddr]. rewrite Hval.
  unfold wrap64, uint64_modulus, int64_of_uint64.
  rewrite Z.mod_small by lia.
  destruct (Z.ltb_spec (1 + Z.of_nat n) (2 ^ 63)); [|lia].
  do 2 f_equal. lia.
Qed.

Lemma sampled_count_in_profile_witness :
  let ctx := mkCtx (15958 * 2 ^ 32 + 15960) 7 (-14) in
  exists (prof' : Profile.t) (store' : MappingStore) (s : Sample.t),
    valueOf (fillProfile (Iterate (Nat.iter 3 (do_sample ctx) ∅)) false
               Scenario.stackTraces Scenario.prof 15958 Scenario.mm
               Scenario.store) = Some (prof', store')
    /\ Profile.Sample prof' = Profile.Sample Scenario.prof ++ [s]
    /\ Sample.Value s = [Z.of_nat 3]
    /\ Location.Address <$> Sample.Location s =
         nonzero (padStack [Scenario.fibNaive; Scenario.main]).
Proof.
  intros ctx.
  apply (sampled_count_in_profile ctx 3 false Scenario.stackTraces
           Scenario.prof 15958 Scenario.mm Scenario.store).
  - vm_compute. discriminate.
  - lia.
  - lia.
  - vm_compute. reflexivity.
  - exact validMappings_Scenario.
Defined.

(** ** Reading the stacks *)

(** Reading a stack back: the bytes of [n] little-endian 64-bit words,
    followed by anything, are read as these [n] words; what follows the
    first [8 * n] bytes is ignored. *)
Theorem binary_Read_round_trip (stack : list Z) (extra : list Byte.byte) :
  Forall is_uint64 stack ->
  binary_Read (encodeStack stack ++ extra) (length stack) = Some stack.
Proof.
  intros Hrange. unfold binary_Read.
  rewrite length_app, encodeStack_length.
  destruct (Nat.ltb_spec (8 * length stack + length extra)
              (8 * length stack)); [lia|].
  f_equal. apply decodeUint64s_encodeStack. exact Hrange.
Qed.

Lemma binary_Read_round_trip_witness :
  binary_Read
    (encodeStack (padStack [Scenario.fibNaive; Scenario.main])
       ++ [Byte.xff; Byte.x01])
    (length (padStack [Scenario.fibNaive; Scenario.main])) =
  Some (padStack [Scenario.fibNaive; Scenario.main]).
Proof.
  apply binary_Read_round_trip.
  unfold padStack, Scenario.fibNaive, Scenario.main.
  apply Forall_app. split.
  - constructor; [unfold is_uint64, uint64_modulus; lia|].
    constructor; [unfold is_uint64, uint64_modulus; lia|constructor].
  - apply Forall_replicate. unfold is_uint64, uint64_modulus. lia.
Defined.
